(** * ZX Spectrum USB keyboard controller: a model of [firmware/Core/Src/my.c]

    The firmware turns the key report of a USB keyboard into the 8 x 5
    key matrix of a ZX Spectrum, expands the matrix into a table with one
    answer per row-select pattern, and lets an interrupt handler answer
    the bus from that table.  This file embeds the C code as Rocq
    functions (integers as [Z] with the conversions written out, arrays
    as lists, globals as a record, effects in a small monad that also
    records a trace) and proves the properties the design document
    states about it. *)

From Stdlib Require Import ZArith Lia List Bool Permutation.
From Stdlib Require String Ascii.
From stdpp Require Import base list.
Import String.StringSyntax.
Delimit Scope string_scope with string.

Local Open Scope Z_scope.

(** ** Machine integers *)

(** Conversion to [uint8_t] and to [unsigned]. *)
Definition u8 (x : Z) : Z := x mod 256.
Definition u32 (x : Z) : Z := x mod 4294967296.

(** ** Key encoding (the [ZX_*] macros) *)

Definition ARRAY_SIZE {A} (a : list A) : Z := Z.of_nat (length a).
Definition BITS_PER_BYTE : Z := 8.
Definition USB_SHIFTS_COUNT : Z := 8.
Definition BSRR_RESET : Z := 16.

Definition ZX_A_SHIFT : Z := 3.
Definition ZX_A_MASK : Z := 7.
Definition ZX_D_MASK : Z := 7.
Definition ZX (A D : Z) : Z :=
  Z.lor (Z.shiftl (Z.land A ZX_A_MASK) ZX_A_SHIFT) (Z.land D ZX_D_MASK).
Definition ZXM_CAP : Z := Z.shiftl 1 7.
Definition ZXM_SYM : Z := Z.shiftl 1 6.
Definition ZX_GET_ADDRESS (KEY : Z) : Z := Z.land (Z.shiftr KEY ZX_A_SHIFT) ZX_A_MASK.
Definition ZX_GET_DATA (KEY : Z) : Z := Z.land KEY ZX_D_MASK.

Definition ZX_1 := ZX 3 0.
Definition ZX_2 := ZX 3 1.
Definition ZX_3 := ZX 3 2.
Definition ZX_4 := ZX 3 3.
Definition ZX_5 := ZX 3 4.
Definition ZX_6 := ZX 4 4.
Definition ZX_7 := ZX 4 3.
Definition ZX_8 := ZX 4 2.
Definition ZX_9 := ZX 4 1.
Definition ZX_0 := ZX 4 0.

Definition ZX_Q := ZX 2 0.
Definition ZX_W := ZX 2 1.
Definition ZX_E := ZX 2 2.
Definition ZX_R := ZX 2 3.
Definition ZX_T := ZX 2 4.
Definition ZX_Y := ZX 5 4.
Definition ZX_U := ZX 5 3.
Definition ZX_I := ZX 5 2.
Definition ZX_O := ZX 5 1.
Definition ZX_P := ZX 5 0.

Definition ZX_A := ZX 1 0.
Definition ZX_S := ZX 1 1.
Definition ZX_D := ZX 1 2.
Definition ZX_F := ZX 1 3.
Definition ZX_G := ZX 1 4.
Definition ZX_H := ZX 6 4.
Definition ZX_J := ZX 6 3.
Definition ZX_K := ZX 6 2.
Definition ZX_L := ZX 6 1.
Definition ZX_ENTER := ZX 6 0.

Definition ZX_CAPS := ZX 0 0.
Definition ZX_Z := ZX 0 1.
Definition ZX_X := ZX 0 2.
Definition ZX_C := ZX 0 3.
Definition ZX_V := ZX 0 4.
Definition ZX_B := ZX 7 4.
Definition ZX_N := ZX 7 3.
Definition ZX_M := ZX 7 2.
Definition ZX_SYM := ZX 7 1.
Definition ZX_SPACE := ZX 7 0.

Definition ZX_EDIT := Z.lor ZX_1 ZXM_CAP.
Definition ZX_CAPSL := Z.lor ZX_2 ZXM_CAP.
Definition ZX_TRUVI := Z.lor ZX_3 ZXM_CAP.
Definition ZX_INVVI := Z.lor ZX_4 ZXM_CAP.
Definition ZX_LEFT := Z.lor ZX_5 ZXM_CAP.
Definition ZX_DOWN := Z.lor ZX_6 ZXM_CAP.
Definition ZX_UP := Z.lor ZX_7 ZXM_CAP.
Definition ZX_RIGHT := Z.lor ZX_8 ZXM_CAP.
Definition ZX_GRAPH := Z.lor ZX_9 ZXM_CAP.
Definition ZX_DEL := Z.lor ZX_0 ZXM_CAP.
Definition ZX_BREAK := Z.lor ZX_SPACE ZXM_CAP.
Definition ZX_EXTMO := Z.lor ZX_SYM ZXM_CAP.

Definition ZX_GRAVE := Z.lor ZX_7 ZXM_SYM.
Definition ZX_OPEN := Z.lor ZX_8 ZXM_SYM.
Definition ZX_CLOSE := Z.lor ZX_9 ZXM_SYM.

Definition ZX_LT := Z.lor ZX_R ZXM_SYM.
Definition ZX_GT := Z.lor ZX_T ZXM_SYM.
Definition ZX_SEMIC := Z.lor ZX_O ZXM_SYM.
Definition ZX_QUOTE := Z.lor ZX_P ZXM_SYM.

Definition ZX_MINUS := Z.lor ZX_J ZXM_SYM.
Definition ZX_PLUS := Z.lor ZX_K ZXM_SYM.
Definition ZX_EQUAL := Z.lor ZX_L ZXM_SYM.

Definition ZX_COLON := Z.lor ZX_Z ZXM_SYM.
Definition ZX_SLASH := Z.lor ZX_V ZXM_SYM.
Definition ZX_MUL := Z.lor ZX_B ZXM_SYM.
Definition ZX_COMMA := Z.lor ZX_N ZXM_SYM.
Definition ZX_DOT := Z.lor ZX_M ZXM_SYM.

Definition ZX_RESET := ZX 0 5.
Definition ZX_MAGIC := ZX 0 6.
Definition ZX_CURJO := ZX 1 5.
Definition ZX_SINJO := ZX 1 6.

Definition NONE : Z := 0xFF.

(** Modelled from the spec: the header [usbh_hid_keybd.h] that declares
    [KEY_A] and [KEY_RIGHTARROW] is not part of the sources.  They are
    the USB usage codes of the keys, numbered as the comments of the
    mapping table number them (04 is A; 4C to 4F are DEL, END, PGDN,
    RIGHT), and with them the last table entry is usage code 101. *)
Definition KEY_A : Z := 0x04.
Definition KEY_RIGHTARROW : Z := 0x4F.

Definition STD_KEYS_OFFSET : Z := USB_SHIFTS_COUNT - KEY_A.

Definition usb_to_zx : list Z := [
    ZX_SYM;   ZX_CAPS;  ZX_EXTMO; ZX_0;     (* LCTRL, LSHIFT, LALT, LGUI *)
    ZX_CAPS;  ZX_SYM;   ZX_EXTMO; ZX_0;     (* RCTRL, RSHIFT, RALT, RGUI *)
    ZX_A;     ZX_B;     ZX_C;     ZX_D;     (* 04  A B C D *)
    ZX_E;     ZX_F;     ZX_G;     ZX_H;     (* 08  E F G H *)
    ZX_I;     ZX_J;     ZX_K;     ZX_L;     (* 0C  I J K L *)
    ZX_M;     ZX_N;     ZX_O;     ZX_P;     (* 10  M N O P *)
    ZX_Q;     ZX_R;     ZX_S;     ZX_T;     (* 14  Q R S T *)
    ZX_U;     ZX_V;     ZX_W;     ZX_X;     (* 18  U V W X *)
    ZX_Y;     ZX_Z;     ZX_1;     ZX_2;     (* 1B  Y Z 1 2 *)
    ZX_3;     ZX_4;     ZX_5;     ZX_6;     (* 20  3 4 5 6 *)
    ZX_7;     ZX_8;     ZX_9;     ZX_0;     (* 24  7 8 9 0 *)
    ZX_ENTER; ZX_BREAK; ZX_DEL;   ZX_EDIT;  (* 28  Enter ESC BKSPC TAB *)
    ZX_SPACE; ZX_MINUS; ZX_EQUAL; ZX_OPEN;  (* 28  Space - = [ *)
    ZX_CLOSE; ZX_COLON; NONE;     ZX_SEMIC; (* 30  ] \ ?  ; *)
    ZX_QUOTE; ZX_GRAVE; ZX_COMMA; ZX_DOT;   (* 34  quote ` , . *)
    ZX_SLASH; ZX_CAPSL; ZX_TRUVI; ZX_INVVI; (* 38  / CAPS F1 F2 *)
    ZX_GRAPH; NONE;     ZX_CURJO; ZX_SINJO; (* 3C  F3 F4 F5 F6 *)
    NONE;     NONE;     NONE;     ZX_MAGIC; (* 40  F7 F8 F9 F10 *)
    NONE;     ZX_RESET; ZX_PLUS;  NONE;     (* 44  F11 F12 PRSCR SCROLL *)
    ZX_PLUS;  NONE;     NONE;     NONE;     (* 48  PAUSE INSERT HOME PGUP *)
    ZX_DEL;   NONE;     NONE;     ZX_RIGHT; (* 4C  DEL END PGDN RIGHT *)
    ZX_LEFT;  ZX_DOWN;  ZX_UP;    NONE;     (* 50  LEFT DOWN UP NUM *)
    ZX_SLASH; ZX_MUL;   ZX_MINUS; ZX_PLUS;  (* 54  g/ g* g- g+ *)
    ZX_ENTER; ZX_1;     ZX_2;     ZX_3;     (* 58  gENTER g1 g2 g3 *)
    ZX_4;     ZX_5;     ZX_6;     ZX_7;     (* 58  g4 g5 g6 g7 *)
    ZX_8;     ZX_9;     ZX_0;     ZX_DOT;   (* 60  g8 g9 g0 g. *)
    0; ZX_0                                 (* 64  ? APP *)
  ].

Definition usb_to_zx_joystick : list Z := [ ZX_7; ZX_6; ZX_8; ZX_9 ].

(** ** Memory: the two tables, the published pointer, the mode flag *)

Inductive buffer := BufA | BufB.

(** A pointer into one of the two tables. *)
Record ptr := mkptr { base : buffer; off : Z }.

#[global] Instance buffer_eq_dec : EqDecision buffer.
Proof. solve_decision. Defined.
#[global] Instance ptr_eq_dec : EqDecision ptr.
Proof. solve_decision. Defined.

Definition array_ptr (b : buffer) : ptr := mkptr b 0.
Definition ptr_add (p : ptr) (n : Z) : ptr := mkptr (base p) (off p + n).

Record state := mkstate {
  zx_prepared_a : list Z;
  zx_prepared_b : list Z;
  zx_prepared : ptr;
  sinclair_joystic : bool
}.

Definition initial_state : state :=
  mkstate (replicate 256 0xFF) (replicate 256 0xFF) (array_ptr BufA) false.

Definition table (b : buffer) (st : state) : list Z :=
  match b with BufA => zx_prepared_a st | BufB => zx_prepared_b st end.

Definition load (p : ptr) (st : state) : Z :=
  table (base p) st !!! Z.to_nat (off p).

Definition store (p : ptr) (v : Z) (st : state) : state :=
  match base p with
  | BufA => mkstate (<[Z.to_nat (off p) := v]> (zx_prepared_a st)) (zx_prepared_b st)
                    (zx_prepared st) (sinclair_joystic st)
  | BufB => mkstate (zx_prepared_a st) (<[Z.to_nat (off p) := v]> (zx_prepared_b st))
                    (zx_prepared st) (sinclair_joystic st)
  end.

(** ** Effects *)

Inductive gpio := GPIOA | GPIOB | GPIOC.

Inductive event :=
| EvDebugOutput (usb_key : Z)      (* DebugOutput("Unknown key %02X\r\n", usb_key) *)
| EvStore (p : ptr) (v : Z)        (* *p = v *)
| EvPublish (p : ptr)              (* zx_prepared = p *)
| EvMode (b : bool)                (* sinclair_joystic = b *)
| EvBSRR (port : gpio) (v : Z)     (* port->BSRR = v *)
| EvODR (port : gpio) (v : Z)      (* port->ODR = v *)
| EvClearExti                      (* __HAL_GPIO_EXTI_CLEAR_IT(0xFFFF) *)
| EvDisableIrq
| EvEnableIrq.

Definition apply_event (e : event) (st : state) : state :=
  match e with
  | EvStore p v => store p v st
  | EvPublish p =>
      mkstate (zx_prepared_a st) (zx_prepared_b st) p (sinclair_joystic st)
  | EvMode b => mkstate (zx_prepared_a st) (zx_prepared_b st) (zx_prepared st) b
  | _ => st
  end.

Definition replay (tr : list event) (st : state) : state :=
  fold_left (fun s e => apply_event e s) tr st.

(** A computation reads and changes the globals, appends to the trace,
    and either returns or blocks for ever ([None]); the globals and the
    trace up to the point where it blocks are kept. *)
Definition M (A : Type) : Type := state -> option A * state * list event.

Definition ret {A} (a : A) : M A := fun st => (Some a, st, []).

Definition bind {A B} (m : M A) (f : A -> M B) : M B :=
  fun st =>
    match m st with
    | (Some a, st', tr) =>
        match f a st' with (r, st'', tr') => (r, st'', tr ++ tr') end
    | (None, st', tr) => (None, st', tr)
    end.

Definition gets {A} (f : state -> A) : M A := fun st => (Some (f st), st, []).
Definition emit (e : event) : M unit := fun st => (Some tt, apply_event e st, [e]).
Definition blocked {A} : M A := fun st => (None, st, []).

Notation "x <- c1 ;; c2" := (bind c1 (fun x => c2))
  (at level 100, c1 at next level, right associativity).
Notation "c1 ;;; c2" := (bind c1 (fun _ => c2))
  (at level 100, right associativity).

Definition result {A} (r : option A * state * list event) : option A := fst (fst r).
Definition final {A} (r : option A * state * list event) : state := snd (fst r).
Definition trace {A} (r : option A * state * list event) : list event := snd r.

(** [for (i = lo; n iterations; i++) a = body(i, a)]. *)
Fixpoint for_loop {A} (n : nat) (i : Z) (body : Z -> A -> M A) (a : A) : M A :=
  match n with
  | O => ret a
  | S n' => a' <- body i a ;; for_loop n' (i + 1) body a'
  end.

Fixpoint for_pure {A} (n : nat) (i : Z) (body : Z -> A -> A) (a : A) : A :=
  match n with
  | O => a
  | S n' => for_pure n' (i + 1) body (body i a)
  end.

(** ** The matrix *)

Abbreviation matrix := (list Z).

Definition zero_matrix : matrix := replicate 8 0.

Definition ZxMatrixGet (zx_matix : matrix) (zx_key : Z) : Z :=
  u8 (Z.land (zx_matix !!! Z.to_nat (ZX_GET_ADDRESS zx_key))
             (Z.shiftl 1 (ZX_GET_DATA zx_key))).

Definition ZxMatrixSet (zx_matrix : matrix) (zx_key : Z) : matrix :=
  <[Z.to_nat (ZX_GET_ADDRESS zx_key) :=
      u8 (Z.lor (zx_matrix !!! Z.to_nat (ZX_GET_ADDRESS zx_key))
                (Z.shiftl 1 (ZX_GET_DATA zx_key)))]> zx_matrix.

Definition DebugOutput_unknown_key (usb_key : Z) : M unit := emit (EvDebugOutput usb_key).

Definition ZxMatrixSetUsb (zx_matrix : matrix) (usb_key : Z) : M matrix :=
  let unknown := DebugOutput_unknown_key usb_key ;;; ret zx_matrix in
  let lookup :=
    if usb_key <? ARRAY_SIZE usb_to_zx then
      let zx_key := usb_to_zx !!! Z.to_nat usb_key in
      if negb (zx_key =? NONE) then
        let m1 := ZxMatrixSet zx_matrix zx_key in
        let m2 := if negb (Z.land zx_key ZXM_CAP =? 0) then ZxMatrixSet m1 ZX_CAPS else m1 in
        let m3 := if negb (Z.land zx_key ZXM_SYM =? 0) then ZxMatrixSet m2 ZX_SYM else m2 in
        ret m3
      else unknown
    else unknown in
  joy <- gets sinclair_joystic ;;
  if joy then
    let i := u32 (usb_key - (STD_KEYS_OFFSET + KEY_RIGHTARROW)) in
    if i <? ARRAY_SIZE usb_to_zx_joystick then
      ret (ZxMatrixSet zx_matrix (usb_to_zx_joystick !!! Z.to_nat i))
    else lookup
  else lookup.

(** ** The key report *)

(** Modelled from the spec: the report type [HID_KEYBD_Info_TypeDef] is
    declared in a header that is not part of the sources.  The key report
    source gives the modifier keys and the standard pressed usage codes;
    the eight modifier bytes lie directly before [keys], in the order of
    the first eight entries of the mapping table, which is what
    [info->keys - USB_SHIFTS_COUNT] relies on. *)
Record HID_KEYBD_Info := mkinfo {
  lctrl : Z; lshift : Z; lalt : Z; lgui : Z;
  rctrl : Z; rshift : Z; ralt : Z; rgui : Z;
  keys : list Z
}.

Definition info_shifts (info : HID_KEYBD_Info) : list Z :=
  [lctrl info; lshift info; lalt info; lgui info;
   rctrl info; rshift info; ralt info; rgui info].

(** What the USB host stack answers in one poll. *)
Inductive usb_input :=
| NoHidClass                          (* pActiveClass != USBH_HID_CLASS *)
| NoKeybdInfo                         (* USBH_HID_GetKeybdInfo returns NULL *)
| KeybdInfo (info : HID_KEYBD_Info).

(** Pin masks of the HAL: [GPIO_PIN_n] is bit [n]. *)
Definition GPIO_PIN (n : Z) : Z := Z.shiftl 1 n.
Definition GPIO_PIN_6 := GPIO_PIN 6.
Definition GPIO_PIN_8 := GPIO_PIN 8.
Definition GPIO_PIN_9 := GPIO_PIN 9.
Definition GPIO_PIN_13 := GPIO_PIN 13.

(** [while (cond(GPIOA->IDR));] over the successive values the input
    register shows; [None] when the loop never leaves on them. *)
Fixpoint wait_while (cond : Z -> bool) (idr : list Z) : option (list Z) :=
  match idr with
  | [] => None
  | v :: rest => if cond v then wait_while cond rest else Some rest
  end.

(** ** The poll cycle *)

(** The two loops that fill the matrix. *)
Definition build_matrix (info : HID_KEYBD_Info) : M matrix :=
  zx_matrix <-
    for_loop (Z.to_nat USB_SHIFTS_COUNT) 0
      (fun i zx_matrix =>
         if negb (info_shifts info !!! Z.to_nat i =? 0)
         then ZxMatrixSetUsb zx_matrix i
         else ret zx_matrix)
      zero_matrix ;;
  for_loop (Z.to_nat (ARRAY_SIZE (keys info))) 0
    (fun i zx_matrix =>
       if KEY_A <=? keys info !!! Z.to_nat i
       then ZxMatrixSetUsb zx_matrix (u8 (STD_KEYS_OFFSET + keys info !!! Z.to_nat i))
       else ret zx_matrix)
    zx_matrix.

Definition update_mode (zx_matrix : matrix) : M unit :=
  if negb (ZxMatrixGet zx_matrix ZX_CURJO =? 0) then emit (EvMode false)
  else if negb (ZxMatrixGet zx_matrix ZX_SINJO =? 0) then emit (EvMode true)
  else ret tt.

(** The inner loop over the rows, for table index [i]. *)
Definition row_loop (zx_matrix : matrix) (i : Z) : Z * Z :=
  for_pure (Z.to_nat BITS_PER_BYTE) 0
    (fun j '(p, z) =>
       (if Z.land z 1 =? 0 then Z.lor p (zx_matrix !!! Z.to_nat j) else p,
        Z.shiftr z 1))
    (0, i).

(** The value [~p] stored as a byte. *)
Definition table_entry (zx_matrix : matrix) (i : Z) : Z :=
  u8 (u32 (Z.lnot (fst (row_loop zx_matrix i)))).

Definition precompute (zx_matrix : matrix) : M ptr :=
  zp <- gets zx_prepared ;;
  let a := if decide (zp <> array_ptr BufA) then array_ptr BufA else array_ptr BufB in
  o <- for_loop (Z.to_nat (0x100 - 1)) 0
         (fun i o => emit (EvStore o (table_entry zx_matrix i)) ;;; ret (ptr_add o 1))
         a ;;
  emit (EvPublish a) ;;;
  ret a.

(** The magic key.  The delay between press and release counts a local
    variable up to 2 and has no other effect. *)
Definition magic (idr : list Z) : M unit :=
  emit EvDisableIrq ;;;
  match wait_while (fun v => Z.land v GPIO_PIN_6 =? 0) idr with
  | None => blocked
  | Some idr' =>
      match wait_while (fun v => negb (Z.land v GPIO_PIN_6 =? 0)) idr' with
      | None => blocked
      | Some _ =>
          emit (EvBSRR GPIOB (Z.shiftl GPIO_PIN_9 BSRR_RESET)) ;;;
          emit (EvBSRR GPIOB GPIO_PIN_9) ;;;
          emit EvEnableIrq
      end
  end.

(** The LED, the reset line and the magic key. *)
Definition signals (zx_matrix : matrix) (a : ptr) (idr : list Z) : M unit :=
  a0 <- gets (load a) ;;
  emit (EvBSRR GPIOC (if negb (a0 =? 0xFF)
                      then Z.shiftl GPIO_PIN_13 BSRR_RESET else GPIO_PIN_13)) ;;;
  emit (EvBSRR GPIOB (if negb (ZxMatrixGet zx_matrix ZX_RESET =? 0)
                      then Z.shiftl GPIO_PIN_8 BSRR_RESET else GPIO_PIN_8)) ;;;
  if negb (ZxMatrixGet zx_matrix ZX_MAGIC =? 0) then magic idr else ret tt.

(** [MyIdle], given the answer of the USB stack and the values that
    [GPIOA->IDR] shows while the magic key waits. *)
Definition MyIdle (input : usb_input) (idr : list Z) : M unit :=
  match input with
  | NoHidClass => ret tt
  | NoKeybdInfo => ret tt
  | KeybdInfo info =>
      zx_matrix <- build_matrix info ;;
      update_mode zx_matrix ;;;
      a <- precompute zx_matrix ;;
      signals zx_matrix a idr
  end.

(** The bus interrupt: the row-select lines are the low byte of
    [GPIOB->IDR], the answer goes to [GPIOA->ODR]. *)
Definition EXTI9_5_IRQHandler (idr_b : Z) : M unit :=
  zp <- gets zx_prepared ;;
  v <- gets (load (ptr_add zp (Z.land idr_b 0xFF))) ;;
  emit (EvODR GPIOA v) ;;;
  emit EvClearExti.

(** A run of poll cycles; a cycle that blocks is the last. *)
Fixpoint run_cycles (cycles : list (usb_input * list Z)) (st : state) : state :=
  match cycles with
  | [] => st
  | (input, idr) :: rest =>
      match MyIdle input idr st with
      | (Some _, st', _) => run_cycles rest st'
      | (None, st', _) => st'
      end
  end.

(** ** The build as a list of keys *)

(** The matrix keys that one call of [ZxMatrixSetUsb] sets, in order. *)
Definition zx_keys (joy : bool) (usb_key : Z) : list Z :=
  let i := u32 (usb_key - (STD_KEYS_OFFSET + KEY_RIGHTARROW)) in
  if joy && (i <? ARRAY_SIZE usb_to_zx_joystick) then
    [usb_to_zx_joystick !!! Z.to_nat i]
  else if usb_key <? ARRAY_SIZE usb_to_zx then
    let zx_key := usb_to_zx !!! Z.to_nat usb_key in
    if zx_key =? NONE then []
    else zx_key :: (if Z.land zx_key ZXM_CAP =? 0 then [] else [ZX_CAPS])
                ++ (if Z.land zx_key ZXM_SYM =? 0 then [] else [ZX_SYM])
  else [].

(** Whether the call ends in [DebugOutput]. *)
Definition unknown_key (joy : bool) (usb_key : Z) : bool :=
  let i := u32 (usb_key - (STD_KEYS_OFFSET + KEY_RIGHTARROW)) in
  if joy && (i <? ARRAY_SIZE usb_to_zx_joystick) then false
  else if usb_key <? ARRAY_SIZE usb_to_zx then usb_to_zx !!! Z.to_nat usb_key =? NONE
  else true.

Definition usb_diag (joy : bool) (usb_key : Z) : list event :=
  if unknown_key joy usb_key then [EvDebugOutput usb_key] else [].

(** The arguments of the calls of [ZxMatrixSetUsb] in one poll, in the
    order of the two loops. *)
Fixpoint shift_keys (i : Z) (shifts : list Z) : list Z :=
  match shifts with
  | [] => []
  | s :: rest => (if negb (s =? 0) then [i] else []) ++ shift_keys (i + 1) rest
  end.

Fixpoint std_keys (ks : list Z) : list Z :=
  match ks with
  | [] => []
  | k :: rest =>
      (if KEY_A <=? k then [u8 (STD_KEYS_OFFSET + k)] else []) ++ std_keys rest
  end.

Definition pressed_usb_keys (info : HID_KEYBD_Info) : list Z :=
  shift_keys 0 (info_shifts info) ++ std_keys (keys info).

(** [ZxMatrixSetUsb] called on a list of arguments in the given order. *)
Fixpoint for_each (l : list Z) (zx_matrix : matrix) : M matrix :=
  match l with
  | [] => ret zx_matrix
  | usb_key :: l' => m <- ZxMatrixSetUsb zx_matrix usb_key ;; for_each l' m
  end.

(** A loop over the indices of an array, as a recursion over its elements. *)
Fixpoint iter_list {A} (h : Z -> Z -> A -> M A) (i : Z) (l : list Z) (a : A) : M A :=
  match l with
  | [] => ret a
  | x :: l' => a' <- h i x a ;; iter_list h (i + 1) l' a'
  end.

(** The matrix of one poll, for the mode flag [joy] at its start. *)
Definition built (joy : bool) (info : HID_KEYBD_Info) : matrix :=
  fold_left ZxMatrixSet (flat_map (zx_keys joy) (pressed_usb_keys info)) zero_matrix.

(** ** The trace of the precompute step *)

(** The table that is not published: the target of the next precompute. *)
Definition inactive (st : state) : ptr :=
  if decide (zx_prepared st <> array_ptr BufA) then array_ptr BufA else array_ptr BufB.

(** The stores of [n] rounds of the precompute loop from index [i] and
    pointer [o]. *)
Fixpoint stores (zx_matrix : matrix) (n : nat) (i : Z) (o : ptr) : list event :=
  match n with
  | O => []
  | S n' => EvStore o (table_entry zx_matrix i) :: stores zx_matrix n' (i + 1) (ptr_add o 1)
  end.

Definition mode_events (zx_matrix : matrix) : list event :=
  if negb (ZxMatrixGet zx_matrix ZX_CURJO =? 0) then [EvMode false]
  else if negb (ZxMatrixGet zx_matrix ZX_SINJO =? 0) then [EvMode true]
  else [].

(** Events that leave the globals alone. *)
Definition is_io (e : event) : bool :=
  match e with
  | EvStore _ _ | EvPublish _ | EvMode _ => false
  | _ => true
  end.

(** A trace without [EvPublish] keeps the pointer, one without [EvMode]
    keeps the flag, one without [EvStore] keeps the tables. *)
Definition no_publish (e : event) : bool :=
  match e with EvPublish _ => false | _ => true end.
Definition no_mode (e : event) : bool :=
  match e with EvMode _ => false | _ => true end.
Definition no_store (e : event) : bool :=
  match e with EvStore _ _ => false | _ => true end.

(** The published pointer and the mode flag after a trace. *)
Definition handle_after (tr : list event) (p : ptr) : ptr :=
  fold_left (fun p e => match e with EvPublish q => q | _ => p end) tr p.

Definition mode_after (tr : list event) (b : bool) : bool :=
  fold_left (fun b e => match e with EvMode b' => b' | _ => b end) tr b.

(** The globals are well formed: two tables of 256 bytes, and the
    published pointer is the start of one of them. *)
Definition published_ok (p : ptr) : Prop := p = array_ptr BufA \/ p = array_ptr BufB.

Definition wf_state (st : state) : Prop :=
  length (zx_prepared_a st) = 256%nat /\
  length (zx_prepared_b st) = 256%nat /\
  published_ok (zx_prepared st).

(** The part of the trace of a poll that touches the globals, with the
    diagnostics before it. *)
Definition poll_core (st : state) (info : HID_KEYBD_Info) : list event :=
  let m := built (sinclair_joystic st) info in
  flat_map (usb_diag (sinclair_joystic st)) (pressed_usb_keys info)
  ++ mode_events m
  ++ stores m 255 0 (inactive st)
  ++ [EvPublish (inactive st)].

(** The matrix bit that a key stands for. *)
Definition bit_at (zx_matrix : matrix) (zx_key : Z) : bool :=
  Z.testbit (zx_matrix !!! Z.to_nat (ZX_GET_ADDRESS zx_key)) (ZX_GET_DATA zx_key).

(** Two keys with the same row and column. *)
Definition same_position (k1 k2 : Z) : bool :=
  (ZX_GET_ADDRESS k1 =? ZX_GET_ADDRESS k2) && (ZX_GET_DATA k1 =? ZX_GET_DATA k2).

(** The joystick branch of [ZxMatrixSetUsb] is taken. *)
Definition joystick_override (joy : bool) (usb_key : Z) : bool :=
  joy && (u32 (usb_key - (STD_KEYS_OFFSET + KEY_RIGHTARROW)) <? ARRAY_SIZE usb_to_zx_joystick).

(** A key whose column is one of the five of the keyboard, or one of the
    two reserved columns 5 and 6 in rows 0 and 1. *)
Definition key_fits (zx_key : Z) : bool :=
  (ZX_GET_DATA zx_key <=? 6) && ((ZX_GET_ADDRESS zx_key <? 2) || (ZX_GET_DATA zx_key <=? 4)).

Definition row_ok (r : nat) (x : Z) : Prop :=
  0 <= x < 128 /\ ((2 <= r)%nat -> x < 32).

Definition matrix_ok (m : matrix) : Prop :=
  length m = 8%nat /\ forall r, (r < 8)%nat -> row_ok r (m !!! r).

(** Reports used in the examples: one pressed usage code, no modifiers. *)
Definition one_key (usage : Z) : HID_KEYBD_Info :=
  mkinfo 0 0 0 0 0 0 0 0 [usage; 0; 0; 0; 0; 0].

Definition KEY_F6 : Z := 0x3F.
Definition KEY_F12 : Z := 0x45.

(** ** The table entries in words *)

(** The OR of the rows of the matrix that [sel] selects. *)
Definition or_rows (zx_matrix : matrix) (sel : Z -> bool) : Z :=
  fold_right Z.lor 0
    (map (fun r => zx_matrix !!! r)
         (List.filter (fun r => sel (Z.of_nat r)) (seq 0 8))).

(** The bitwise complement, all 8 bits. *)
Definition complement8 (p : Z) : Z := u8 (Z.lnot p).

(** The entry at [i] as the design document words it: the complement of
    the OR of the rows whose bit of [i] is set. *)
Definition claimed_entry (zx_matrix : matrix) (i : Z) : Z :=
  complement8 (or_rows zx_matrix (fun r => Z.testbit i r)).

(** The entry at [i] with the row-select lines active low: the complement
    of the OR of the rows whose bit of [i] is clear. *)
Definition active_low_entry (zx_matrix : matrix) (i : Z) : Z :=
  complement8 (or_rows zx_matrix (fun r => negb (Z.testbit i r))).

(** The byte that the published table holds at index [i]. *)
Definition published_entry (st : state) (i : Z) : Z :=
  load (ptr_add (zx_prepared st) i) st.

(** The targets of the stores of a trace, in order. *)
Definition store_targets (tr : list event) : list ptr :=
  flat_map (fun e => match e with EvStore p _ => [p] | _ => [] end) tr.

(** The USB stack answers with a report. *)
Definition device_present (input : usb_input) : bool :=
  match input with KeybdInfo _ => true | _ => false end.

Definition KEY_F5 : Z := 0x3E.

(** The part of the trace before the publication. *)
Definition before_publish (st : state) (info : HID_KEYBD_Info) : list event :=
  let m := built (sinclair_joystic st) info in
  flat_map (usb_diag (sinclair_joystic st)) (pressed_usb_keys info)
  ++ mode_events m
  ++ stores m 255 0 (inactive st).

(** The force-standard key is not asserted in the matrix of a report:
    stated for every state in joystick mode. *)
Definition curjo_released (input : usb_input) : Prop :=
  forall info st m,
    input = KeybdInfo info -> sinclair_joystic st = true ->
    result (build_matrix info st) = Some m -> ZxMatrixGet m ZX_CURJO = 0.

(** One report has every key of another: every usage code of the first
    is in the second, and every modifier byte that is non-zero in the
    first is non-zero in the second. *)
Definition report_le (info info' : HID_KEYBD_Info) : Prop :=
  (forall u, In u (keys info) -> In u (keys info')) /\
  Forall2 (fun s s' => s <> 0 -> s' <> 0) (info_shifts info) (info_shifts info').

(** What holds of the two tables in every state that polls reach: every
    entry is a byte with bit 7 set, and the entry at 255 is 0xFF. *)
Definition tables_inv (st : state) : Prop :=
  wf_state st /\
  (forall b (k : nat), (k < 256)%nat -> 128 <= table b st !!! k < 256) /\
  (forall b, table b st !!! 255%nat = 0xFF).

(** ** The strobe and the port writes of a trace *)

#[global] Instance gpio_eq_dec : EqDecision gpio.
Proof. solve_decision. Defined.

(** The values of [GPIOA->IDR] show one cycle of the strobe M1 on pin 6:
    low values, a high one, further high values, a low one. *)
Definition m1_cycle (idr : list Z) : Prop :=
  exists lows h highs l rest,
    idr = lows ++ h :: highs ++ l :: rest /\
    forallb (fun v => Z.land v GPIO_PIN_6 =? 0) lows = true /\
    (Z.land h GPIO_PIN_6 =? 0) = false /\
    forallb (fun v => negb (Z.land v GPIO_PIN_6 =? 0)) highs = true /\
    (Z.land l GPIO_PIN_6 =? 0) = true.

(** Both waits of the magic key come to an end on these values. *)
Definition m1_cycled (idr : list Z) : bool :=
  match wait_while (fun v => Z.land v GPIO_PIN_6 =? 0) idr with
  | None => false
  | Some idr' =>
      match wait_while (fun v => negb (Z.land v GPIO_PIN_6 =? 0)) idr' with
      | None => false
      | Some _ => true
      end
  end.

(** Whether interrupts are enabled after a trace that starts with them
    enabled. *)
Definition irq_enabled (tr : list event) : bool :=
  fold_left (fun en e => match e with
                         | EvDisableIrq => false
                         | EvEnableIrq => true
                         | _ => en
                         end) tr true.

(** The values written to the BSRR register of a port, in order. *)
Definition bsrr_writes (port : gpio) (tr : list event) : list Z :=
  flat_map (fun e => match e with
                     | EvBSRR p v => if decide (p = port) then [v] else []
                     | _ => []
                     end) tr.

Definition KEY_F10 : Z := 0x43.

(** The four positions outside the keyboard and the usage codes (F12,
    F10, F5, F6) whose table entries they are. *)
Definition reserved_keys : list (Z * Z) :=
  [(ZX_RESET, KEY_F12); (ZX_MAGIC, KEY_F10); (ZX_CURJO, KEY_F5); (ZX_SINJO, KEY_F6)].

(** ** Diagnostics *)

(** The bytes of a string literal. *)
Definition bytes_of (s : String.string) : list Z :=
  map (fun c => Z.of_N (Ascii.N_of_ascii c)) (String.list_ascii_of_string s).

(** [vsnprintf(buf, size, format, args)] for a format and arguments whose
    full expansion is [text]: the buffer gets the first [size - 1] bytes
    of it and a terminating 0, the result is the length of the full
    expansion. *)
Definition vsnprintf (size : nat) (text : list Z) : list Z * Z :=
  (take (size - 1) text ++ [0], Z.of_nat (length text)).

(** [DebugOutput] on a format and arguments with expansion [text]: the
    bytes handed to [HAL_UART_Transmit], or [None] when it is not called. *)
Definition DebugOutput (text : list Z) : option (list Z) :=
  let '(buf, result) := vsnprintf 128 text in
  if 0 <? result then
    let length := if result <? 128 - 1 then result else 128 - 1 in
    Some (take (Z.to_nat length) buf)
  else None.

(** The digit of [%X] for a value below 16. *)
Definition hex_digit (d : Z) : Z := if d <? 10 then 48 + d else 55 + d.

(** The expansion of ["Unknown key %02X\r\n"] for a key below 256. *)
Definition unknown_key_text (usb_key : Z) : list Z :=
  bytes_of "Unknown key "%string
  ++ [hex_digit (usb_key / 16); hex_digit (usb_key mod 16)]
  ++ [13; 10].

(** ** Bytes and bits *)

Lemma u8_range x : 0 <= u8 x < 256.
Proof. unfold u8. apply Z.mod_pos_bound. lia. Qed.

Lemma u8_small x : 0 <= x < 256 -> u8 x = x.
Proof. intros H. unfold u8. apply Z.mod_small. exact H. Qed.

Lemma u8_testbit x n : 0 <= n -> Z.testbit (u8 x) n = (n <? 8) && Z.testbit x n.
Proof.
  intros Hn. unfold u8. change 256 with (2 ^ 8).
  apply Z.testbit_mod_pow2. lia.
Qed.

Lemma u8_lor_u8 x y : u8 (Z.lor (u8 x) y) = u8 (Z.lor x y).
Proof.
  apply Z.bits_inj'. intros n Hn.
  rewrite !u8_testbit, !Z.lor_spec, u8_testbit by exact Hn.
  destruct (n <? 8); reflexivity.
Qed.

Lemma u8_lor_swap x b1 b2 :
  u8 (Z.lor (u8 (Z.lor x b1)) b2) = u8 (Z.lor (u8 (Z.lor x b2)) b1).
Proof.
  rewrite !u8_lor_u8. f_equal.
  rewrite <- !Z.lor_assoc. f_equal. apply Z.lor_comm.
Qed.

Lemma ZX_GET_ADDRESS_range k : 0 <= ZX_GET_ADDRESS k < 8.
Proof.
  unfold ZX_GET_ADDRESS, ZX_A_MASK. change 7 with (Z.ones 3).
  rewrite Z.land_ones by lia. apply Z.mod_pos_bound. reflexivity.
Qed.

Lemma ZX_GET_DATA_range k : 0 <= ZX_GET_DATA k < 8.
Proof.
  unfold ZX_GET_DATA, ZX_D_MASK. change 7 with (Z.ones 3).
  rewrite Z.land_ones by lia. apply Z.mod_pos_bound. reflexivity.
Qed.

(** ** Setting keys in the matrix *)

Lemma ZxMatrixSet_length m k : length (ZxMatrixSet m k) = length m.
Proof. unfold ZxMatrixSet. apply length_insert. Qed.

Lemma fold_ZxMatrixSet_length ks : forall m,
  length (fold_left ZxMatrixSet ks m) = length m.
Proof.
  induction ks as [|k ks IH]; intros m; simpl; [reflexivity|].
  rewrite IH. apply ZxMatrixSet_length.
Qed.

(** Row [r] after a key is set. *)
Lemma ZxMatrixSet_lookup (m : matrix) k (r : nat) :
  (r < length m)%nat ->
  ZxMatrixSet m k !!! r =
    if decide (r = Z.to_nat (ZX_GET_ADDRESS k))
    then u8 (Z.lor (m !!! r) (Z.shiftl 1 (ZX_GET_DATA k)))
    else m !!! r.
Proof.
  intros Hr. unfold ZxMatrixSet. destruct (decide _) as [->|Hne].
  - rewrite list_lookup_total_insert_eq by exact Hr. reflexivity.
  - rewrite list_lookup_total_insert_ne by congruence. reflexivity.
Qed.

(** Two keys can be set in either order. *)
Lemma ZxMatrixSet_comm (m : matrix) k1 k2 :
  length m = 8%nat ->
  ZxMatrixSet (ZxMatrixSet m k1) k2 = ZxMatrixSet (ZxMatrixSet m k2) k1.
Proof.
  intros Hlen.
  pose proof (ZX_GET_ADDRESS_range k1) as H1.
  pose proof (ZX_GET_ADDRESS_range k2) as H2.
  unfold ZxMatrixSet.
  destruct (decide (ZX_GET_ADDRESS k1 = ZX_GET_ADDRESS k2)) as [He|Hne].
  - rewrite He. rewrite !list_lookup_total_insert_eq by lia.
    rewrite !list_insert_insert_eq. f_equal. apply u8_lor_swap.
  - assert (Z.to_nat (ZX_GET_ADDRESS k1) <> Z.to_nat (ZX_GET_ADDRESS k2)) as Hn by lia.
    rewrite !list_lookup_total_insert_ne by congruence.
    apply list_insert_insert_ne. congruence.
Qed.

Lemma fold_ZxMatrixSet_perm ks ks' :
  Permutation ks ks' ->
  forall m, length m = 8%nat -> fold_left ZxMatrixSet ks m = fold_left ZxMatrixSet ks' m.
Proof.
  induction 1 as [|k ks ks' _ IH|k1 k2 ks|ks1 ks2 ks3 _ IH1 _ IH2]; intros m Hm; simpl.
  - reflexivity.
  - apply IH. rewrite ZxMatrixSet_length. exact Hm.
  - rewrite (ZxMatrixSet_comm m k2 k1) by exact Hm. reflexivity.
  - rewrite IH1 by exact Hm. apply IH2. exact Hm.
Qed.

(** ** Loops *)

Lemma for_loop_list {A} (h : Z -> Z -> A -> M A) (l : list Z) :
  forall (pre : list Z) (a : A) (st : state),
    for_loop (length l) (Z.of_nat (length pre))
      (fun i a => h i ((pre ++ l) !!! Z.to_nat i) a) a st
    = iter_list h (Z.of_nat (length pre)) l a st.
Proof.
  induction l as [|x l IH]; intros pre a st; simpl; [reflexivity|].
  unfold bind. rewrite Nat2Z.id.
  rewrite lookup_total_app_r by lia. rewrite Nat.sub_diag. simpl.
  destruct (h (Z.of_nat (length pre)) x a st) as [[[a'|] st'] tr]; [|reflexivity].
  specialize (IH (pre ++ [x]) a' st').
  rewrite length_app in IH. simpl in IH.
  replace (Z.of_nat (length pre + 1)) with (Z.of_nat (length pre) + 1) in IH by lia.
  rewrite <- app_assoc in IH. simpl in IH. rewrite IH. reflexivity.
Qed.

Lemma for_loop_list0 {A} (h : Z -> Z -> A -> M A) (l : list Z) (a : A) (st : state) :
  for_loop (length l) 0 (fun i a => h i (l !!! Z.to_nat i) a) a st
  = iter_list h 0 l a st.
Proof. exact (for_loop_list h l [] a st). Qed.

(** ** [ZxMatrixSetUsb] and the build, in closed form *)

Lemma ZxMatrixSetUsb_run m usb_key st :
  ZxMatrixSetUsb m usb_key st =
    (Some (fold_left ZxMatrixSet (zx_keys (sinclair_joystic st) usb_key) m), st,
     usb_diag (sinclair_joystic st) usb_key).
Proof.
  unfold ZxMatrixSetUsb, zx_keys, usb_diag, unknown_key, bind, gets, ret,
    DebugOutput_unknown_key, emit.
  simpl.
  destruct (sinclair_joystic st); simpl.
  - destruct (u32 _ <? _); simpl; [reflexivity|].
    destruct (usb_key <? _); simpl; [|destruct st; reflexivity].
    destruct (_ =? NONE); simpl; [destruct st; reflexivity|].
    destruct (Z.land _ ZXM_CAP =? 0); destruct (Z.land _ ZXM_SYM =? 0); reflexivity.
  - destruct (usb_key <? _); simpl; [|destruct st; reflexivity].
    destruct (_ =? NONE); simpl; [destruct st; reflexivity|].
    destruct (Z.land _ ZXM_CAP =? 0); destruct (Z.land _ ZXM_SYM =? 0); reflexivity.
Qed.

Lemma for_each_run l : forall m st,
  for_each l m st =
    (Some (fold_left ZxMatrixSet (flat_map (zx_keys (sinclair_joystic st)) l) m), st,
     flat_map (usb_diag (sinclair_joystic st)) l).
Proof.
  induction l as [|k l IH]; intros m st; simpl; [reflexivity|].
  unfold bind. rewrite ZxMatrixSetUsb_run, IH, fold_left_app. reflexivity.
Qed.

Lemma shifts_loop_run shifts : forall i m st,
  iter_list (fun i s zx_matrix =>
               if negb (s =? 0) then ZxMatrixSetUsb zx_matrix i else ret zx_matrix)
    i shifts m st
  = for_each (shift_keys i shifts) m st.
Proof.
  induction shifts as [|s shifts IH]; intros i m st; simpl; [reflexivity|].
  unfold bind. destruct (negb (s =? 0)); simpl.
  - unfold bind. rewrite ZxMatrixSetUsb_run, IH. reflexivity.
  - rewrite IH, for_each_run. reflexivity.
Qed.

Lemma keys_loop_run ks : forall i m st,
  iter_list (fun _ k zx_matrix =>
               if KEY_A <=? k then ZxMatrixSetUsb zx_matrix (u8 (STD_KEYS_OFFSET + k))
               else ret zx_matrix)
    i ks m st
  = for_each (std_keys ks) m st.
Proof.
  induction ks as [|k ks IH]; intros i m st; simpl; [reflexivity|].
  unfold bind. destruct (KEY_A <=? k); simpl.
  - unfold bind. rewrite ZxMatrixSetUsb_run, IH. reflexivity.
  - rewrite IH, for_each_run. reflexivity.
Qed.

Lemma for_each_app l1 l2 m st :
  for_each (l1 ++ l2) m st = (m' <- for_each l1 m ;; for_each l2 m') st.
Proof.
  unfold bind. rewrite !for_each_run, !flat_map_app, fold_left_app. reflexivity.
Qed.

(** The two loops of the build call [ZxMatrixSetUsb] on the pressed keys. *)
Lemma build_matrix_for_each info st :
  build_matrix info st = for_each (pressed_usb_keys info) zero_matrix st.
Proof.
  unfold pressed_usb_keys. rewrite for_each_app.
  unfold build_matrix, bind.
  change (Z.to_nat USB_SHIFTS_COUNT) with (length (info_shifts info)).
  rewrite (for_loop_list0
             (fun i s zx_matrix =>
                if negb (s =? 0) then ZxMatrixSetUsb zx_matrix i else ret zx_matrix)).
  rewrite shifts_loop_run.
  destruct (for_each (shift_keys 0 (info_shifts info)) zero_matrix st) as [[[m|] st'] tr];
    [|reflexivity].
  unfold ARRAY_SIZE. rewrite Nat2Z.id.
  rewrite (for_loop_list0
             (fun _ k zx_matrix =>
                if KEY_A <=? k then ZxMatrixSetUsb zx_matrix (u8 (STD_KEYS_OFFSET + k))
                else ret zx_matrix)).
  rewrite keys_loop_run. reflexivity.
Qed.

Lemma build_matrix_run info st :
  build_matrix info st =
    (Some (built (sinclair_joystic st) info), st,
     flat_map (usb_diag (sinclair_joystic st)) (pressed_usb_keys info)).
Proof. rewrite build_matrix_for_each. apply for_each_run. Qed.

(** ** Replaying a trace *)

Lemma replay_app tr1 tr2 st : replay (tr1 ++ tr2) st = replay tr2 (replay tr1 st).
Proof. unfold replay. apply fold_left_app. Qed.

Lemma apply_event_io e st : is_io e = true -> apply_event e st = st.
Proof. destruct e; simpl; intros H; try discriminate; reflexivity. Qed.

Lemma replay_io tr : forall st, forallb is_io tr = true -> replay tr st = st.
Proof.
  induction tr as [|e tr IH]; intros st H; simpl in *; [reflexivity|].
  apply andb_prop in H as [He Htr].
  rewrite apply_event_io by exact He. apply IH. exact Htr.
Qed.

Lemma usb_diag_io joy l : forallb is_io (flat_map (usb_diag joy) l) = true.
Proof.
  induction l as [|k l IH]; simpl; [reflexivity|].
  rewrite forallb_app, IH. unfold usb_diag.
  destruct (unknown_key joy k); reflexivity.
Qed.

Lemma usb_diag_no_publish joy l : forallb no_publish (flat_map (usb_diag joy) l) = true.
Proof.
  induction l as [|k l IH]; simpl; [reflexivity|].
  rewrite forallb_app, IH. unfold usb_diag.
  destruct (unknown_key joy k); reflexivity.
Qed.

Lemma apply_event_length e st b :
  length (table b (apply_event e st)) = length (table b st).
Proof.
  destruct e; simpl; try reflexivity.
  unfold store. destruct (base p), b; simpl; rewrite ?length_insert; reflexivity.
Qed.

Lemma replay_length tr : forall st b,
  length (table b (replay tr st)) = length (table b st).
Proof.
  induction tr as [|e tr IH]; intros st b; simpl; [reflexivity|].
  rewrite IH. apply apply_event_length.
Qed.

Lemma replay_handle tr : forall st,
  zx_prepared (replay tr st) = handle_after tr (zx_prepared st).
Proof.
  induction tr as [|e tr IH]; intros st; simpl; [reflexivity|].
  rewrite IH. f_equal. destruct e; simpl; try reflexivity.
  unfold store. destruct (base p); reflexivity.
Qed.

Lemma replay_mode tr : forall st,
  sinclair_joystic (replay tr st) = mode_after tr (sinclair_joystic st).
Proof.
  induction tr as [|e tr IH]; intros st; simpl; [reflexivity|].
  rewrite IH. f_equal. destruct e; simpl; try reflexivity.
  unfold store. destruct (base p); reflexivity.
Qed.

Lemma handle_after_app tr1 tr2 p :
  handle_after (tr1 ++ tr2) p = handle_after tr2 (handle_after tr1 p).
Proof. unfold handle_after. apply fold_left_app. Qed.

Lemma mode_after_app tr1 tr2 b :
  mode_after (tr1 ++ tr2) b = mode_after tr2 (mode_after tr1 b).
Proof. unfold mode_after. apply fold_left_app. Qed.

Lemma handle_after_keep tr : forall p,
  forallb no_publish tr = true -> handle_after tr p = p.
Proof.
  induction tr as [|e tr IH]; intros p H; simpl in *; [reflexivity|].
  apply andb_prop in H as [He Htr]. rewrite IH by exact Htr.
  destruct e; try reflexivity; discriminate.
Qed.

Lemma mode_after_keep tr : forall b,
  forallb no_mode tr = true -> mode_after tr b = b.
Proof.
  induction tr as [|e tr IH]; intros b H; simpl in *; [reflexivity|].
  apply andb_prop in H as [He Htr]. rewrite IH by exact Htr.
  destruct e; try reflexivity; discriminate.
Qed.

Lemma replay_table_keep tr : forall st b,
  forallb no_store tr = true -> table b (replay tr st) = table b st.
Proof.
  induction tr as [|e tr IH]; intros st b H; simpl in *; [reflexivity|].
  apply andb_prop in H as [He Htr]. rewrite IH by exact Htr.
  destruct e; try reflexivity; discriminate.
Qed.

(** ** The precompute loop *)

Lemma stores_no_publish m n : forall i o, forallb no_publish (stores m n i o) = true.
Proof. induction n as [|n IH]; intros i o; simpl; [reflexivity|apply IH]. Qed.

Lemma stores_no_mode m n : forall i o, forallb no_mode (stores m n i o) = true.
Proof. induction n as [|n IH]; intros i o; simpl; [reflexivity|apply IH]. Qed.

Lemma store_loop_run m n : forall i o st,
  for_loop n i
    (fun i o => emit (EvStore o (table_entry m i)) ;;; ret (ptr_add o 1)) o st
  = (Some (ptr_add o (Z.of_nat n)), replay (stores m n i o) st, stores m n i o).
Proof.
  induction n as [|n IH]; intros i o st.
  - simpl. unfold ret, ptr_add. destruct o as [b k]. simpl.
    replace (k + Z.of_nat 0) with k by lia. reflexivity.
  - cbn [for_loop stores]. unfold bind at 1. unfold bind at 1.
    unfold emit at 1. unfold ret at 1. rewrite IH.
    simpl. f_equal. f_equal. f_equal. unfold ptr_add. simpl. f_equal. lia.
Qed.

Lemma precompute_run m st :
  precompute m st =
    (Some (inactive st),
     replay (stores m 255 0 (inactive st) ++ [EvPublish (inactive st)]) st,
     stores m 255 0 (inactive st) ++ [EvPublish (inactive st)]).
Proof.
  unfold precompute. unfold bind at 1. unfold gets at 1. fold (inactive st).
  unfold bind at 1. change (Z.to_nat (256 - 1)) with 255%nat.
  rewrite store_loop_run. unfold bind, emit, ret.
  rewrite replay_app. reflexivity.
Qed.

(** ** The poll cycle in closed form *)

Lemma update_mode_run m st :
  update_mode m st = (Some tt, replay (mode_events m) st, mode_events m).
Proof.
  unfold update_mode, mode_events.
  destruct (negb (ZxMatrixGet m ZX_CURJO =? 0)); [reflexivity|].
  destruct (negb (ZxMatrixGet m ZX_SINJO =? 0)); reflexivity.
Qed.

Lemma mode_events_no_publish m : forallb no_publish (mode_events m) = true.
Proof.
  unfold mode_events.
  destruct (negb (ZxMatrixGet m ZX_CURJO =? 0)); [reflexivity|].
  destruct (negb (ZxMatrixGet m ZX_SINJO =? 0)); reflexivity.
Qed.

Lemma mode_events_no_store m : forallb no_store (mode_events m) = true.
Proof.
  unfold mode_events.
  destruct (negb (ZxMatrixGet m ZX_CURJO =? 0)); [reflexivity|].
  destruct (negb (ZxMatrixGet m ZX_SINJO =? 0)); reflexivity.
Qed.

Lemma inactive_replay_mode m st : inactive (replay (mode_events m) st) = inactive st.
Proof.
  unfold inactive. rewrite replay_handle.
  rewrite handle_after_keep by apply mode_events_no_publish. reflexivity.
Qed.

Lemma magic_run idr st :
  exists r tail, forallb is_io tail = true /\ magic idr st = (r, st, tail).
Proof.
  unfold magic, bind, emit, blocked. simpl.
  destruct (wait_while _ idr) as [idr'|]; [|eexists _, _; split; [|reflexivity]; reflexivity].
  destruct (wait_while _ idr') as [idr''|]; eexists _, _; (split; [|reflexivity]); reflexivity.
Qed.

Lemma signals_run m a idr st :
  exists r tail, forallb is_io tail = true /\ signals m a idr st = (r, st, tail).
Proof.
  unfold signals, bind, gets, emit. simpl.
  destruct (negb (ZxMatrixGet m ZX_MAGIC =? 0)).
  - destruct (magic_run idr st) as (r & tail & Hio & ->).
    eexists _, _. split; [|reflexivity]. simpl. exact Hio.
  - eexists _, _. split; [|reflexivity]. reflexivity.
Qed.

(** A poll with a report: the diagnostics, the mode update, the 255
    stores, the publication, and then only port writes. *)
Lemma MyIdle_run info idr st :
  exists r tail,
    forallb is_io tail = true /\
    MyIdle (KeybdInfo info) idr st =
      (r, replay (poll_core st info) st, poll_core st info ++ tail).
Proof.
  unfold MyIdle. unfold bind at 1. rewrite build_matrix_run.
  unfold bind at 1. rewrite update_mode_run.
  unfold bind at 1. rewrite precompute_run.
  rewrite inactive_replay_mode.
  set (m := built (sinclair_joystic st) info).
  set (a := inactive st).
  set (st2 := replay (stores m 255 0 a ++ [EvPublish a]) (replay (mode_events m) st)).
  destruct (signals_run m a idr st2) as (r & tail & Hio & ->).
  exists r, tail. split; [exact Hio|].
  unfold poll_core. fold m a.
  rewrite (replay_app (flat_map _ _)).
  rewrite (replay_io (flat_map _ _)) by apply usb_diag_io.
  rewrite (replay_app (mode_events m)). fold st2.
  rewrite <- !app_assoc. reflexivity.
Qed.

Lemma MyIdle_final info idr st :
  final (MyIdle (KeybdInfo info) idr st) = replay (poll_core st info) st.
Proof. destruct (MyIdle_run info idr st) as (r & tail & _ & ->). reflexivity. Qed.

(** ** Reading the matrix *)

Lemma shiftl_1_testbit d n : 0 <= d -> 0 <= n -> Z.testbit (Z.shiftl 1 d) n = (n =? d).
Proof.
  intros Hd Hn. rewrite Z.shiftl_1_l. destruct (Z.eqb_spec n d) as [->|Hne].
  - apply Z.pow2_bits_true. exact Hd.
  - apply Z.pow2_bits_false. congruence.
Qed.

Lemma land_bit x d :
  0 <= d -> Z.land x (Z.shiftl 1 d) = if Z.testbit x d then Z.shiftl 1 d else 0.
Proof.
  intros Hd. apply Z.bits_inj'. intros n Hn.
  rewrite Z.land_spec, shiftl_1_testbit by lia.
  destruct (Z.eqb_spec n d) as [->|Hne].
  - destruct (Z.testbit x d); simpl.
    + rewrite shiftl_1_testbit by lia. symmetry. apply Z.eqb_refl.
    + symmetry. apply Z.bits_0.
  - rewrite andb_false_r. destruct (Z.testbit x d).
    + rewrite shiftl_1_testbit by lia. symmetry. apply Z.eqb_neq. exact Hne.
    + symmetry. apply Z.bits_0.
Qed.

(** [ZxMatrixGet] is non-zero exactly when the bit of the key is set. *)
Lemma ZxMatrixGet_bit_at m k : (ZxMatrixGet m k =? 0) = negb (bit_at m k).
Proof.
  unfold ZxMatrixGet, bit_at.
  pose proof (ZX_GET_DATA_range k) as Hd.
  rewrite land_bit by lia.
  destruct (Z.testbit _ _); simpl; [|reflexivity].
  rewrite Z.shiftl_1_l. unfold u8.
  assert (2 ^ ZX_GET_DATA k = 1 \/ 2 ^ ZX_GET_DATA k = 2 \/ 2 ^ ZX_GET_DATA k = 4 \/
          2 ^ ZX_GET_DATA k = 8 \/ 2 ^ ZX_GET_DATA k = 16 \/ 2 ^ ZX_GET_DATA k = 32 \/
          2 ^ ZX_GET_DATA k = 64 \/ 2 ^ ZX_GET_DATA k = 128) as Hp.
  { assert (ZX_GET_DATA k = 0 \/ ZX_GET_DATA k = 1 \/ ZX_GET_DATA k = 2 \/
            ZX_GET_DATA k = 3 \/ ZX_GET_DATA k = 4 \/ ZX_GET_DATA k = 5 \/
            ZX_GET_DATA k = 6 \/ ZX_GET_DATA k = 7) as Hc by lia.
    destruct Hc as [-> | [-> | [-> | [-> | [-> | [-> | [-> | ->]]]]]]]; simpl; lia. }
  apply Z.eqb_neq.
  destruct Hp as [-> | [-> | [-> | [-> | [-> | [-> | [-> | ->]]]]]]]; discriminate.
Qed.

(** The bits after a key is set: the old ones and the one of the key. *)
Lemma bit_at_ZxMatrixSet (m : matrix) k' k :
  length m = 8%nat ->
  bit_at (ZxMatrixSet m k') k = bit_at m k || same_position k' k.
Proof.
  intros Hlen. unfold bit_at, same_position.
  pose proof (ZX_GET_ADDRESS_range k) as Ha.
  pose proof (ZX_GET_ADDRESS_range k') as Ha'.
  pose proof (ZX_GET_DATA_range k) as Hd.
  pose proof (ZX_GET_DATA_range k') as Hd'.
  rewrite ZxMatrixSet_lookup by lia.
  destruct (decide _) as [He|Hne].
  - assert (ZX_GET_ADDRESS k' = ZX_GET_ADDRESS k) as He' by lia.
    rewrite He', Z.eqb_refl. simpl.
    rewrite u8_testbit, Z.lor_spec, shiftl_1_testbit by lia.
    replace (ZX_GET_DATA k <? 8) with true by (symmetry; apply Z.ltb_lt; lia).
    simpl. rewrite (Z.eqb_sym (ZX_GET_DATA k)). reflexivity.
  - replace (ZX_GET_ADDRESS k' =? ZX_GET_ADDRESS k) with false
      by (symmetry; apply Z.eqb_neq; lia).
    simpl. rewrite orb_false_r. reflexivity.
Qed.

Lemma bit_at_fold_ZxMatrixSet ks : forall (m : matrix) k,
  length m = 8%nat ->
  bit_at (fold_left ZxMatrixSet ks m) k = bit_at m k || existsb (fun k' => same_position k' k) ks.
Proof.
  induction ks as [|k' ks IH]; intros m k Hlen; simpl.
  - rewrite orb_false_r. reflexivity.
  - rewrite IH by (rewrite ZxMatrixSet_length; exact Hlen).
    rewrite bit_at_ZxMatrixSet by exact Hlen. rewrite orb_assoc. reflexivity.
Qed.

Lemma same_position_refl k : same_position k k = true.
Proof. unfold same_position. rewrite !Z.eqb_refl. reflexivity. Qed.

(** ** The order of the pressed keys *)

Lemma for_each_perm st l l' :
  Permutation l l' ->
  result (for_each l' zero_matrix st) = result (for_each l zero_matrix st).
Proof.
  intros Hperm. rewrite !for_each_run. unfold result. simpl.
  f_equal. symmetry. apply fold_ZxMatrixSet_perm; [|reflexivity].
  apply Permutation_flat_map. exact Hperm.
Qed.

Lemma std_keys_perm ks ks' : Permutation ks ks' -> Permutation (std_keys ks) (std_keys ks').
Proof.
  induction 1 as [|k ks ks' _ IH|k1 k2 ks|ks1 ks2 ks3 _ IH1 _ IH2]; simpl.
  - apply Permutation_refl.
  - apply Permutation_app_head. exact IH.
  - rewrite !app_assoc. apply Permutation_app_tail. apply Permutation_app_comm.
  - eapply Permutation_trans; eassumption.
Qed.

(** The order of the usage codes within the report does not matter. *)
Lemma report_order_irrelevant st info info' :
  info_shifts info' = info_shifts info ->
  Permutation (keys info) (keys info') ->
  result (build_matrix info' st) = result (build_matrix info st).
Proof.
  intros Hs Hk. rewrite !build_matrix_for_each.
  apply for_each_perm. unfold pressed_usb_keys. rewrite Hs.
  apply Permutation_app_head. apply std_keys_perm. exact Hk.
Qed.

(** C3: for every report (modifier bytes and pressed usage codes, mapped
    or not) and every value of the mode flag, calling [ZxMatrixSetUsb]
    on the pressed keys in any permuted order builds the same matrix as
    the two loops of the poll cycle do. *)
Theorem build_order_irrelevant (st : state) (info : HID_KEYBD_Info) (l' : list Z) :
  Permutation (pressed_usb_keys info) l' ->
  result (for_each l' zero_matrix st) = result (build_matrix info st)
  /\ exists m, length m = 8%nat /\ result (build_matrix info st) = Some m.
Proof.
  intros Hperm. split.
  - rewrite build_matrix_for_each. apply for_each_perm. exact Hperm.
  - rewrite build_matrix_run. eexists. split; [|reflexivity].
    unfold built. rewrite fold_ZxMatrixSet_length. reflexivity.
Qed.

Lemma build_order_irrelevant_witness :
  result (for_each [9; 1; 8] zero_matrix initial_state)
  = result (build_matrix (mkinfo 0 1 0 0 0 0 0 0 [4; 5; 0; 0; 0; 0]) initial_state)
  /\ exists m, length m = 8%nat /\
       result (build_matrix (mkinfo 0 1 0 0 0 0 0 0 [4; 5; 0; 0; 0; 0]) initial_state)
       = Some m.
Proof.
  apply (build_order_irrelevant initial_state
           (mkinfo 0 1 0 0 0 0 0 0 [4; 5; 0; 0; 0; 0]) [9; 1; 8]).
  change (Permutation [1; 8; 9] [9; 1; 8]).
  apply Permutation_sym, (Permutation_cons_app [1; 8] [] 9). apply Permutation_refl.
Defined.

(** ** Joystick mode *)

Lemma ZxMatrixGet_alt m k :
  ZxMatrixGet m k = if bit_at m k then u8 (Z.shiftl 1 (ZX_GET_DATA k)) else 0.
Proof.
  unfold ZxMatrixGet, bit_at. pose proof (ZX_GET_DATA_range k) as Hd.
  rewrite land_bit by lia. destruct (Z.testbit _ _); reflexivity.
Qed.

Lemma ZxMatrixGet_nonzero m k : ZxMatrixGet m k <> 0 <-> bit_at m k = true.
Proof.
  pose proof (ZxMatrixGet_bit_at m k) as H.
  destruct (bit_at m k); simpl in H.
  - apply Z.eqb_neq in H. split; [reflexivity|intros _; exact H].
  - apply Z.eqb_eq in H. split; [intros Hn; contradiction|discriminate].
Qed.

(** Setting a key sets its bit and changes no bit at another position. *)
Lemma ZxMatrixSet_sets (m : matrix) k : length m = 8%nat -> ZxMatrixGet (ZxMatrixSet m k) k <> 0.
Proof.
  intros Hlen. apply ZxMatrixGet_nonzero.
  rewrite bit_at_ZxMatrixSet by exact Hlen.
  rewrite same_position_refl. apply orb_true_r.
Qed.

Lemma ZxMatrixSet_frame (m : matrix) k' k :
  length m = 8%nat -> same_position k' k = false ->
  ZxMatrixGet (ZxMatrixSet m k') k = ZxMatrixGet m k.
Proof.
  intros Hlen Hpos. rewrite !ZxMatrixGet_alt.
  rewrite bit_at_ZxMatrixSet by exact Hlen. rewrite Hpos, orb_false_r. reflexivity.
Qed.

(** The four directional codes and what they stand for in either mode. *)
Lemma directional_codes usage :
  KEY_RIGHTARROW <= usage < KEY_RIGHTARROW + 4 ->
  usage = 0x4F \/ usage = 0x50 \/ usage = 0x51 \/ usage = 0x52.
Proof. unfold KEY_RIGHTARROW. lia. Qed.

(** C4: in joystick mode, the call of [ZxMatrixSetUsb] for one of the four
    directional usage codes (right, left, down, up) sets the bit of the
    joystick key of that code and nothing else: no diagnostic, no other
    matrix position changes, and the position of the joystick key is
    neither the one of the code's entry in the mapping table nor CAPS
    nor SYM, although that entry carries the CAPS flag. *)
Theorem joystick_mode_arrows (st : state) (m : matrix) (usage : Z) :
  sinclair_joystic st = true ->
  length m = 8%nat ->
  KEY_RIGHTARROW <= usage < KEY_RIGHTARROW + 4 ->
  let usb_key := u8 (STD_KEYS_OFFSET + usage) in
  let joy_key := usb_to_zx_joystick !!! Z.to_nat (usage - KEY_RIGHTARROW) in
  let normal := usb_to_zx !!! Z.to_nat usb_key in
  ZxMatrixSetUsb m usb_key st = (Some (ZxMatrixSet m joy_key), st, []) /\
  ZxMatrixGet (ZxMatrixSet m joy_key) joy_key <> 0 /\
  (forall k, same_position joy_key k = false ->
             ZxMatrixGet (ZxMatrixSet m joy_key) k = ZxMatrixGet m k) /\
  Z.land normal ZXM_CAP <> 0 /\
  same_position joy_key normal = false /\
  same_position joy_key ZX_CAPS = false /\
  same_position joy_key ZX_SYM = false.
Proof.
  intros Hjoy Hlen Hrange usb_key joy_key normal.
  split; [|split; [|split]].
  - rewrite ZxMatrixSetUsb_run, Hjoy.
    subst usb_key joy_key.
    destruct (directional_codes usage Hrange) as [-> | [-> | [-> | ->]]]; reflexivity.
  - apply ZxMatrixSet_sets. exact Hlen.
  - intros k Hk. apply ZxMatrixSet_frame; assumption.
  - subst usb_key joy_key normal.
    destruct (directional_codes usage Hrange) as [-> | [-> | [-> | ->]]];
      vm_compute; repeat split; discriminate.
Qed.

Lemma joystick_mode_arrows_witness :
  let st := mkstate (replicate 256 0xFF) (replicate 256 0xFF) (array_ptr BufA) true in
  ZxMatrixSetUsb zero_matrix 83 st = (Some (ZxMatrixSet zero_matrix ZX_7), st, []) /\
  ZxMatrixGet (ZxMatrixSet zero_matrix ZX_7) ZX_7 <> 0 /\
  (forall k, same_position ZX_7 k = false ->
             ZxMatrixGet (ZxMatrixSet zero_matrix ZX_7) k = ZxMatrixGet zero_matrix k) /\
  Z.land ZX_RIGHT ZXM_CAP <> 0 /\
  same_position ZX_7 ZX_RIGHT = false /\
  same_position ZX_7 ZX_CAPS = false /\
  same_position ZX_7 ZX_SYM = false.
Proof.
  intros st.
  apply (joystick_mode_arrows st zero_matrix 0x4F); [reflexivity|reflexivity|].
  unfold KEY_RIGHTARROW. lia.
Defined.

(** ** Modifier injection *)

Lemma joystick_override_range joy usb_key :
  0 <= usb_key < 256 ->
  joystick_override joy usb_key = true <->
  joy = true /\
  STD_KEYS_OFFSET + KEY_RIGHTARROW <= usb_key < STD_KEYS_OFFSET + KEY_RIGHTARROW + 4.
Proof.
  intros Hk. unfold joystick_override, u32.
  change (STD_KEYS_OFFSET + KEY_RIGHTARROW) with 83.
  change (ARRAY_SIZE usb_to_zx_joystick) with 4.
  rewrite andb_true_iff, Z.ltb_lt.
  split; intros [Hj Hi]; (split; [exact Hj|]).
  - destruct (Z_lt_le_dec usb_key 83) as [Hlt|Hge].
    + replace (usb_key - 83) with ((usb_key - 83 + 4294967296) + (-1) * 4294967296) in Hi by lia.
      rewrite Z.mod_add in Hi by lia. rewrite Z.mod_small in Hi by lia. lia.
    + rewrite Z.mod_small in Hi by lia. lia.
  - rewrite Z.mod_small by lia. lia.
Qed.

Lemma zx_keys_lookup joy usb_key :
  joystick_override joy usb_key = false ->
  usb_key < ARRAY_SIZE usb_to_zx ->
  usb_to_zx !!! Z.to_nat usb_key <> NONE ->
  zx_keys joy usb_key =
    usb_to_zx !!! Z.to_nat usb_key
    :: (if Z.land (usb_to_zx !!! Z.to_nat usb_key) ZXM_CAP =? 0 then [] else [ZX_CAPS])
    ++ (if Z.land (usb_to_zx !!! Z.to_nat usb_key) ZXM_SYM =? 0 then [] else [ZX_SYM])
  /\ usb_diag joy usb_key = [].
Proof.
  intros Hov Hlt Hne. unfold zx_keys, usb_diag, unknown_key.
  unfold joystick_override in Hov. rewrite Hov.
  apply Z.ltb_lt in Hlt. rewrite Hlt.
  apply Z.eqb_neq in Hne. rewrite Hne. split; reflexivity.
Qed.

Lemma bit_at_fold_In ks (m : matrix) k :
  length m = 8%nat -> In k ks -> bit_at (fold_left ZxMatrixSet ks m) k = true.
Proof.
  intros Hlen Hin. rewrite bit_at_fold_ZxMatrixSet by exact Hlen.
  apply orb_true_iff. right. apply existsb_exists.
  exists k. split; [exact Hin|apply same_position_refl].
Qed.

(** C6, as the code has it: outside the joystick branch (the mode flag is
    off, or the code is not one of the four directional codes), the call
    of [ZxMatrixSetUsb] for a mapped code sets the bit of the code's key,
    and with it the CAPS bit when the key carries the CAPS flag and the
    SYM bit when it carries the SYM flag; it prints no diagnostic.  In
    the joystick branch the call leaves the bit of the code's own key
    and the CAPS and SYM bits as they were. *)
Theorem modifier_injection (st : state) (m : matrix) (usb_key : Z) :
  length m = 8%nat ->
  0 <= usb_key < ARRAY_SIZE usb_to_zx ->
  usb_to_zx !!! Z.to_nat usb_key <> NONE ->
  let zx_key := usb_to_zx !!! Z.to_nat usb_key in
  let directional :=
    STD_KEYS_OFFSET + KEY_RIGHTARROW <= usb_key < STD_KEYS_OFFSET + KEY_RIGHTARROW + 4 in
  exists m',
    ZxMatrixSetUsb m usb_key st = (Some m', st, []) /\
    (~ (sinclair_joystic st = true /\ directional) ->
       ZxMatrixGet m' zx_key <> 0 /\
       (Z.land zx_key ZXM_CAP <> 0 -> ZxMatrixGet m' ZX_CAPS <> 0) /\
       (Z.land zx_key ZXM_SYM <> 0 -> ZxMatrixGet m' ZX_SYM <> 0)) /\
    (sinclair_joystic st = true /\ directional ->
       ZxMatrixGet m' zx_key = ZxMatrixGet m zx_key /\
       ZxMatrixGet m' ZX_CAPS = ZxMatrixGet m ZX_CAPS /\
       ZxMatrixGet m' ZX_SYM = ZxMatrixGet m ZX_SYM).
Proof.
  intros Hlen Hk Hne zx_key directional.
  assert (0 <= usb_key < 256) as Hk8 by (change (ARRAY_SIZE usb_to_zx) with 106 in Hk; lia).
  rewrite ZxMatrixSetUsb_run.
  destruct (joystick_override (sinclair_joystic st) usb_key) eqn:Hov.
  - (* the joystick branch *)
    apply (joystick_override_range _ _ Hk8) in Hov as [Hjoy Hdir].
    rewrite Hjoy.
    assert (usb_key = 83 \/ usb_key = 84 \/ usb_key = 85 \/ usb_key = 86) as Hcases
      by (change (STD_KEYS_OFFSET + KEY_RIGHTARROW) with 83 in Hdir; lia).
    eexists. split; [|split].
    + destruct Hcases as [-> | [-> | [-> | ->]]]; reflexivity.
    + intros Hno. exfalso. apply Hno. split; [reflexivity|exact Hdir].
    + intros _. subst zx_key.
      destruct Hcases as [-> | [-> | [-> | ->]]];
        (repeat split; (apply ZxMatrixSet_frame; [exact Hlen|reflexivity])).
  - (* the mapping table *)
    destruct (zx_keys_lookup _ _ Hov (proj2 Hk) Hne) as [Hkeys Hdiag].
    rewrite Hkeys, Hdiag. fold zx_key.
    eexists. split; [reflexivity|]. split.
    + intros _. rewrite !ZxMatrixGet_nonzero.
      split; [|split].
      * apply bit_at_fold_In; [exact Hlen|]. left. reflexivity.
      * intros Hcap. apply Z.eqb_neq in Hcap. rewrite Hcap.
        apply bit_at_fold_In; [exact Hlen|]. right. apply in_or_app. left. left. reflexivity.
      * intros Hsym. apply Z.eqb_neq in Hsym. rewrite Hsym.
        apply bit_at_fold_In; [exact Hlen|]. right. apply in_or_app. right. left. reflexivity.
    + intros [Hjoy Hdir]. exfalso.
      assert (joystick_override (sinclair_joystic st) usb_key = true) as Hov'
        by (apply joystick_override_range; [exact Hk8|split; assumption]).
      congruence.
Qed.

Lemma modifier_injection_witness :
  exists m',
    ZxMatrixSetUsb zero_matrix 45 initial_state = (Some m', initial_state, []) /\
    (~ (sinclair_joystic initial_state = true /\
        STD_KEYS_OFFSET + KEY_RIGHTARROW <= 45 < STD_KEYS_OFFSET + KEY_RIGHTARROW + 4) ->
       ZxMatrixGet m' (usb_to_zx !!! Z.to_nat 45) <> 0 /\
       (Z.land (usb_to_zx !!! Z.to_nat 45) ZXM_CAP <> 0 -> ZxMatrixGet m' ZX_CAPS <> 0) /\
       (Z.land (usb_to_zx !!! Z.to_nat 45) ZXM_SYM <> 0 -> ZxMatrixGet m' ZX_SYM <> 0)) /\
    (sinclair_joystic initial_state = true /\
     STD_KEYS_OFFSET + KEY_RIGHTARROW <= 45 < STD_KEYS_OFFSET + KEY_RIGHTARROW + 4 ->
       ZxMatrixGet m' (usb_to_zx !!! Z.to_nat 45) = ZxMatrixGet zero_matrix (usb_to_zx !!! Z.to_nat 45) /\
       ZxMatrixGet m' ZX_CAPS = ZxMatrixGet zero_matrix ZX_CAPS /\
       ZxMatrixGet m' ZX_SYM = ZxMatrixGet zero_matrix ZX_SYM).
Proof.
  apply (modifier_injection initial_state zero_matrix 45).
  - reflexivity.
  - change (0 <= 45 < 106). lia.
  - vm_compute. discriminate.
Defined.

(** The claim of C6 fails in joystick mode: F6 switches the mode on; in
    the next poll the right arrow, whose table entry [ZX_RIGHT] carries
    the CAPS flag, sets the bit of [ZX_7] only, neither its own bit nor
    the CAPS bit. *)
Lemma modifier_injection_counterexample :
  let st := run_cycles [(KeybdInfo (one_key KEY_F6), [])] initial_state in
  let usb_key := STD_KEYS_OFFSET + KEY_RIGHTARROW in
  let zx_key := usb_to_zx !!! Z.to_nat usb_key in
  sinclair_joystic st = true /\
  zx_key = ZX_RIGHT /\ zx_key <> NONE /\ Z.land zx_key ZXM_CAP <> 0 /\
  result (ZxMatrixSetUsb zero_matrix usb_key st) = Some [0; 0; 0; 0; 8; 0; 0; 0] /\
  result (build_matrix (one_key KEY_RIGHTARROW) st) = Some [0; 0; 0; 0; 8; 0; 0; 0] /\
  ZxMatrixGet [0; 0; 0; 0; 8; 0; 0; 0] zx_key = 0 /\
  ZxMatrixGet [0; 0; 0; 0; 8; 0; 0; 0] ZX_CAPS = 0.
Proof. vm_compute. repeat split; discriminate. Qed.

(** ** The columns in use *)

Lemma lor_bound a b n :
  0 <= n -> 0 <= a < 2 ^ n -> 0 <= b < 2 ^ n -> 0 <= Z.lor a b < 2 ^ n.
Proof.
  intros Hn Ha Hb. split; [apply Z.lor_nonneg; lia|].
  rewrite <- (Z.mod_small a (2 ^ n)), <- (Z.mod_small b (2 ^ n)) by lia.
  rewrite <- !Z.land_ones by lia. rewrite <- Z.land_lor_distr_l.
  rewrite Z.land_ones by lia. apply Z.mod_pos_bound. lia.
Qed.

Lemma shiftl_1_bound d n : 0 <= d < n -> 0 <= Z.shiftl 1 d < 2 ^ n.
Proof.
  intros H. rewrite Z.shiftl_1_l. split; [apply Z.pow_nonneg; lia|].
  apply Z.pow_lt_mono_r; lia.
Qed.

Lemma ZxMatrixSet_ok (m : matrix) k :
  matrix_ok m -> key_fits k = true -> matrix_ok (ZxMatrixSet m k).
Proof.
  intros [Hlen Hrows] Hfit. split; [rewrite ZxMatrixSet_length; exact Hlen|].
  intros r Hr. rewrite ZxMatrixSet_lookup by lia.
  destruct (decide _) as [He|Hne]; [|apply Hrows; exact Hr].
  destruct (Hrows r Hr) as [H128 H32].
  unfold key_fits in Hfit. apply andb_prop in Hfit as [Hd6 Hd4].
  apply Z.leb_le in Hd6. pose proof (ZX_GET_DATA_range k) as Hd.
  pose proof (ZX_GET_ADDRESS_range k) as Ha.
  assert (0 <= Z.lor (m !!! r) (Z.shiftl 1 (ZX_GET_DATA k)) < 2 ^ 7) as Hb7.
  { apply lor_bound; [lia|exact H128|apply shiftl_1_bound; lia]. }
  change (2 ^ 7) with 128 in Hb7.
  rewrite u8_small by lia. split; [exact Hb7|].
  intros Hr2. apply orb_prop in Hd4 as [Hrow|Hd4].
  - apply Z.ltb_lt in Hrow. lia.
  - apply Z.leb_le in Hd4.
    assert (0 <= Z.lor (m !!! r) (Z.shiftl 1 (ZX_GET_DATA k)) < 2 ^ 5) as Hb5.
    { apply lor_bound; [lia| |apply shiftl_1_bound; lia].
      change (2 ^ 5) with 32. specialize (H32 Hr2). lia. }
    change (2 ^ 5) with 32 in Hb5. lia.
Qed.

Lemma fold_ZxMatrixSet_ok ks : forall m : matrix,
  matrix_ok m -> forallb key_fits ks = true -> matrix_ok (fold_left ZxMatrixSet ks m).
Proof.
  induction ks as [|k ks IH]; intros m Hm Hfit; simpl in *; [exact Hm|].
  apply andb_prop in Hfit as [Hk Hks].
  apply IH; [apply ZxMatrixSet_ok; assumption|exact Hks].
Qed.

Lemma zero_matrix_ok : matrix_ok zero_matrix.
Proof.
  split; [reflexivity|]. intros r Hr.
  do 8 (destruct r as [|r]; [split; simpl; lia|]). lia.
Qed.

(** Every entry of the two tables fits, and so do CAPS and SYM. *)
Lemma usb_to_zx_fits :
  forallb (fun n => let k := usb_to_zx !!! n in
                    (k =? NONE) || key_fits k) (seq 0 106) = true.
Proof. vm_compute. reflexivity. Qed.

Lemma usb_to_zx_joystick_fits :
  forallb (fun n => key_fits (usb_to_zx_joystick !!! n)) (seq 0 4) = true.
Proof. vm_compute. reflexivity. Qed.

Lemma zx_keys_fit joy usb_key : forallb key_fits (zx_keys joy usb_key) = true.
Proof.
  unfold zx_keys.
  destruct (joy && _) eqn:Hov.
  - apply andb_prop in Hov as [_ Hi]. apply Z.ltb_lt in Hi.
    change (ARRAY_SIZE usb_to_zx_joystick) with 4 in Hi.
    simpl. rewrite andb_true_r.
    pose proof usb_to_zx_joystick_fits as H. rewrite forallb_forall in H.
    apply H. apply in_seq.
    assert (0 <= u32 (usb_key - (STD_KEYS_OFFSET + KEY_RIGHTARROW)))
      by (unfold u32; apply Z.mod_pos_bound; lia).
    lia.
  - destruct (usb_key <? _) eqn:Hlt; [|reflexivity].
    apply Z.ltb_lt in Hlt. change (ARRAY_SIZE usb_to_zx) with 106 in Hlt.
    pose proof usb_to_zx_fits as H. rewrite forallb_forall in H.
    assert (In (Z.to_nat usb_key) (seq 0 106)) as Hin by (apply in_seq; lia).
    specialize (H _ Hin). cbv beta zeta in H.
    destruct (_ =? NONE) eqn:Hnone; [reflexivity|].
    rewrite orb_false_l in H.
    cbn [forallb]. rewrite H, forallb_app.
    destruct (Z.land _ ZXM_CAP =? 0); destruct (Z.land _ ZXM_SYM =? 0); reflexivity.
Qed.

Lemma built_ok joy info : matrix_ok (built joy info).
Proof.
  unfold built. apply fold_ZxMatrixSet_ok; [apply zero_matrix_ok|].
  induction (pressed_usb_keys info) as [|k l IH]; simpl; [reflexivity|].
  rewrite forallb_app, zx_keys_fit, IH. reflexivity.
Qed.

Lemma testbit_above x n j : 0 <= x < 2 ^ n -> 0 <= n <= j -> Z.testbit x j = false.
Proof.
  intros Hx Hj. rewrite <- (Z.mod_small x (2 ^ n)) by exact Hx.
  apply Z.mod_pow2_bits_high. exact Hj.
Qed.

(** C7, as the code has it: every matrix that a poll builds has 8 bytes;
    bit 7 of every byte is zero, and bits 5 and 6 are zero in rows 2 to 7.
    Bits 5 and 6 of rows 0 and 1 are the reserved positions of RESET,
    MAGIC, CURJO and SINJO and can be set. *)
Theorem matrix_columns (st : state) (info : HID_KEYBD_Info) (m : matrix) :
  result (build_matrix info st) = Some m ->
  length m = 8%nat /\
  forall r, (r < 8)%nat ->
    0 <= m !!! r < 128 /\
    ((2 <= r)%nat -> m !!! r < 32) /\
    (forall j, 7 <= j -> Z.testbit (m !!! r) j = false) /\
    ((2 <= r)%nat -> forall j, 5 <= j -> Z.testbit (m !!! r) j = false).
Proof.
  rewrite build_matrix_run. unfold result. simpl. intros [= <-].
  destruct (built_ok (sinclair_joystic st) info) as [Hlen Hrows].
  split; [exact Hlen|]. intros r Hr. destruct (Hrows r Hr) as [H128 H32].
  split; [exact H128|]. split; [exact H32|]. split.
  - intros j Hj. apply (testbit_above _ 7); [exact H128|lia].
  - intros Hr2 j Hj. apply (testbit_above _ 5); [|lia].
    specialize (H32 Hr2). change (2 ^ 5) with 32. lia.
Qed.

Lemma matrix_columns_witness :
  length [32; 0; 0; 0; 0; 0; 0; 0] = 8%nat /\
  forall r, (r < 8)%nat ->
    0 <= [32; 0; 0; 0; 0; 0; 0; 0] !!! r < 128 /\
    ((2 <= r)%nat -> [32; 0; 0; 0; 0; 0; 0; 0] !!! r < 32) /\
    (forall j, 7 <= j -> Z.testbit ([32; 0; 0; 0; 0; 0; 0; 0] !!! r) j = false) /\
    ((2 <= r)%nat -> forall j, 5 <= j -> Z.testbit ([32; 0; 0; 0; 0; 0; 0; 0] !!! r) j = false).
Proof.
  apply (matrix_columns initial_state (one_key KEY_F12) [32; 0; 0; 0; 0; 0; 0; 0]).
  reflexivity.
Defined.

(** The claim of C7 fails: with F12 pressed, bit 5 of row 0 is set. *)
Lemma matrix_columns_counterexample :
  result (build_matrix (one_key KEY_F12) initial_state) = Some [32; 0; 0; 0; 0; 0; 0; 0] /\
  Z.testbit ([32; 0; 0; 0; 0; 0; 0; 0] !!! 0%nat) 5 = true.
Proof. vm_compute. split; reflexivity. Qed.

(** ** The table entries *)

Lemma land_1_testbit z : (Z.land z 1 =? 0) = negb (Z.testbit z 0).
Proof.
  change 1 with (Z.ones 1). rewrite Z.land_ones by lia.
  change (2 ^ 1) with 2. rewrite <- Z.bit0_mod.
  destruct (Z.testbit z 0); reflexivity.
Qed.

Lemma u8_u32 x : u8 (u32 x) = u8 x.
Proof.
  unfold u8, u32. apply Z.mod_mod_divide.
  exists 16777216. reflexivity.
Qed.

Lemma row_loop_gen (m : matrix) i n : forall (j : nat) p,
  fst (for_pure n (Z.of_nat j)
         (fun j '(p, z) =>
            (if Z.land z 1 =? 0 then Z.lor p (m !!! Z.to_nat j) else p, Z.shiftr z 1))
         (p, Z.shiftr i (Z.of_nat j)))
  = Z.lor p (fold_right Z.lor 0
               (map (fun r => m !!! r)
                    (List.filter (fun r => negb (Z.testbit i (Z.of_nat r))) (seq j n)))).
Proof.
  induction n as [|n IH]; intros j p.
  - simpl. rewrite Z.lor_0_r. reflexivity.
  - cbn [for_pure seq List.filter].
    rewrite Z.shiftr_shiftr by lia.
    replace (Z.of_nat j + 1) with (Z.of_nat (S j)) by lia.
    rewrite IH. rewrite land_1_testbit, Z.shiftr_spec by lia.
    rewrite Z.add_0_l, Nat2Z.id.
    destruct (Z.testbit i (Z.of_nat j)); simpl; [reflexivity|].
    rewrite Z.lor_assoc. reflexivity.
Qed.

(** What the inner loop computes: the rows whose bit of [i] is clear. *)
Lemma table_entry_active_low (m : matrix) i : table_entry m i = active_low_entry m i.
Proof.
  unfold table_entry, active_low_entry, complement8, or_rows, row_loop.
  rewrite u8_u32. f_equal. f_equal.
  change (Z.to_nat BITS_PER_BYTE) with 8%nat.
  pose proof (row_loop_gen m i 8 0 0) as H.
  change (Z.of_nat 0) with 0 in H. rewrite Z.shiftr_0_r in H.
  rewrite H. apply Z.lor_0_l.
Qed.

(** ** The tables after a poll *)

Lemma table_store b p v st (k : nat) :
  table b (store p v st) !!! k =
    if decide (b = base p /\ Z.to_nat (off p) = k /\ (k < length (table b st))%nat)
    then v else table b st !!! k.
Proof.
  unfold store.
  destruct (base p) eqn:Hb, b; simpl; try rewrite list_lookup_total_insert;
    repeat case_decide; try reflexivity; try tauto; try lia; try (exfalso; intuition congruence).
Qed.

Lemma store_length b p v st : length (table b (store p v st)) = length (table b st).
Proof. apply (apply_event_length (EvStore p v)). Qed.

Lemma replay_stores_lookup m n : forall i o st b (k : nat),
  0 <= off o ->
  (Z.to_nat (off o) + n <= length (table (base o) st))%nat ->
  table b (replay (stores m n i o) st) !!! k =
    if decide (b = base o /\ (Z.to_nat (off o) <= k < Z.to_nat (off o) + n)%nat)
    then table_entry m (i + (Z.of_nat k - off o))
    else table b st !!! k.
Proof.
  induction n as [|n IH]; intros i o st b k Hoff Hlen.
  - simpl. case_decide; [lia|reflexivity].
  - cbn [stores replay fold_left apply_event]. fold (replay (stores m n (i + 1) (ptr_add o 1)) (store o (table_entry m i) st)).
    rewrite IH; cbn [ptr_add base off]; [|lia|rewrite store_length; lia].
    rewrite table_store.
    destruct (decide (b = base o)) as [->|Hb];
      repeat case_decide; try reflexivity;
      try (exfalso; intuition lia); try (exfalso; intuition congruence);
      f_equal; lia.
Qed.

Lemma inactive_ok st : published_ok (inactive st).
Proof. unfold inactive, published_ok. case_decide; [left|right]; reflexivity. Qed.

Lemma inactive_other st :
  published_ok (zx_prepared st) -> base (inactive st) <> base (zx_prepared st).
Proof.
  intros [H|H]; unfold inactive; rewrite H; unfold array_ptr;
    destruct (decide _) as [Hd|Hd]; simpl.
  - exfalso. apply Hd. reflexivity.
  - discriminate.
  - discriminate.
  - exfalso. apply Hd. discriminate.
Qed.

Lemma poll_handle st info :
  zx_prepared (replay (poll_core st info) st) = inactive st.
Proof.
  rewrite replay_handle. unfold poll_core.
  rewrite !handle_after_app.
  rewrite (handle_after_keep (flat_map _ _)) by (apply usb_diag_no_publish).
  rewrite (handle_after_keep (mode_events _)) by apply mode_events_no_publish.
  rewrite (handle_after_keep (stores _ _ _ _)) by apply stores_no_publish.
  reflexivity.
Qed.

Lemma poll_table st info b (k : nat) :
  wf_state st ->
  table b (replay (poll_core st info) st) !!! k =
    if decide (b = base (inactive st) /\ (k < 255)%nat)
    then table_entry (built (sinclair_joystic st) info) (Z.of_nat k)
    else table b st !!! k.
Proof.
  intros (Ha & Hb & Hp). unfold poll_core.
  rewrite replay_app, (replay_io (flat_map _ _)) by apply usb_diag_io.
  rewrite replay_app, replay_app.
  rewrite (replay_table_keep [EvPublish _]) by reflexivity.
  assert (forall b', table b' (replay (mode_events (built (sinclair_joystic st) info)) st)
                     = table b' st) as Hm
    by (intros b'; apply replay_table_keep, mode_events_no_store).
  assert (off (inactive st) = 0) as Hoff
    by (destruct (inactive_ok st) as [-> | ->]; reflexivity).
  rewrite replay_stores_lookup; rewrite ?Hm, ?Hoff; [|lia|].
  - repeat case_decide; try reflexivity; try (exfalso; intuition lia).
    f_equal. lia.
  - destruct (base (inactive st)); simpl; lia.
Qed.

(** C1, as the code has it: after a poll with a report, for every index
    [i] in [0, 255) the published table holds at [i] the complement (8
    bits) of the OR of the matrix rows whose bit of [i] is clear (the
    row-select lines are active low), and this is the byte that the bus
    interrupt puts on the data port.  So index 0 selects all eight rows,
    and its entry is 0xFF only when no row has a bit set. *)
Theorem response_table_active_low (st : state) (info : HID_KEYBD_Info) (idr : list Z)
    (m : matrix) (i : Z) :
  wf_state st ->
  result (build_matrix info st) = Some m ->
  0 <= i < 255 ->
  let st' := final (MyIdle (KeybdInfo info) idr st) in
  published_entry st' i = active_low_entry m i /\
  trace (EXTI9_5_IRQHandler i st') = [EvODR GPIOA (active_low_entry m i); EvClearExti].
Proof.
  intros Hwf Hm Hi st'.
  rewrite build_matrix_run in Hm. unfold result in Hm. simpl in Hm.
  injection Hm as <-.
  assert (published_entry st' i = active_low_entry (built (sinclair_joystic st) info) i) as He.
  { unfold published_entry, load, st'. rewrite MyIdle_final, poll_handle.
    cbn [ptr_add base off].
    assert (off (inactive st) = 0) as Hoff
      by (destruct (inactive_ok st) as [-> | ->]; reflexivity).
    rewrite Hoff, poll_table by exact Hwf.
    case_decide as Hd; [|exfalso; apply Hd; split; [reflexivity|lia]].
    rewrite Z2Nat.id by lia. apply table_entry_active_low. }
  split; [exact He|].
  unfold EXTI9_5_IRQHandler, bind, gets, emit, trace. simpl.
  change 255 with (Z.ones 8). rewrite Z.land_ones by lia.
  change (2 ^ 8) with 256. rewrite Z.mod_small by lia.
  unfold published_entry in He. rewrite He. reflexivity.
Qed.

Lemma initial_state_wf : wf_state initial_state.
Proof. repeat split. left. reflexivity. Qed.

Lemma response_table_active_low_witness :
  let st' := final (MyIdle (KeybdInfo (one_key KEY_A)) [] initial_state) in
  published_entry st' 2 = active_low_entry [0; 1; 0; 0; 0; 0; 0; 0] 2 /\
  trace (EXTI9_5_IRQHandler 2 st')
  = [EvODR GPIOA (active_low_entry [0; 1; 0; 0; 0; 0; 0; 0] 2); EvClearExti].
Proof.
  apply (response_table_active_low initial_state (one_key KEY_A) []
           [0; 1; 0; 0; 0; 0; 0; 0] 2).
  - exact initial_state_wf.
  - reflexivity.
  - lia.
Defined.

(** The claim of C1 fails: with the key A pressed (row 1, column 0), the
    entry at index 0 is 0xFE where the claim has 0xFF, and the entry at
    index 2, whose only set bit is the one of row 1, is 0xFF where the
    claim has 0xFE. *)
Lemma response_table_counterexample :
  let st' := final (MyIdle (KeybdInfo (one_key KEY_A)) [] initial_state) in
  result (build_matrix (one_key KEY_A) initial_state) = Some [0; 1; 0; 0; 0; 0; 0; 0] /\
  published_entry st' 0 = 0xFE /\
  claimed_entry [0; 1; 0; 0; 0; 0; 0; 0] 0 = 0xFF /\
  published_entry st' 0 <> claimed_entry [0; 1; 0; 0; 0; 0; 0; 0] 0 /\
  published_entry st' 2 = 0xFF /\
  claimed_entry [0; 1; 0; 0; 0; 0; 0; 0] 2 = 0xFE /\
  published_entry st' 2 <> claimed_entry [0; 1; 0; 0; 0; 0; 0; 0] 2.
Proof. vm_compute. repeat split; discriminate. Qed.

(** ** The double buffer *)

Lemma ptr_add_0 p : ptr_add p 0 = p.
Proof. destruct p as [b k]. unfold ptr_add. simpl. f_equal. lia. Qed.

Lemma map_ptr_add_shift o n : forall j,
  map (ptr_add (ptr_add o 1)) (seqZ j (Z.of_nat n))
  = map (ptr_add o) (seqZ (Z.succ j) (Z.of_nat n)).
Proof.
  induction n as [|n IH]; intros j.
  - rewrite !seqZ_nil by lia. reflexivity.
  - rewrite !(seqZ_cons _ (Z.of_nat (S n))) by lia. cbn [map].
    replace (Z.pred (Z.of_nat (S n))) with (Z.of_nat n) by lia.
    rewrite IH. f_equal. unfold ptr_add. simpl. f_equal. lia.
Qed.

Lemma stores_targets m n : forall i o,
  store_targets (stores m n i o) = map (ptr_add o) (seqZ 0 (Z.of_nat n)).
Proof.
  induction n as [|n IH]; intros i o; [reflexivity|].
  cbn [stores store_targets flat_map app].
  fold (store_targets (stores m n (i + 1) (ptr_add o 1))).
  rewrite IH. rewrite (seqZ_cons 0 (Z.of_nat (S n))) by lia. cbn [map].
  rewrite ptr_add_0. f_equal.
  replace (Z.pred (Z.of_nat (S n))) with (Z.of_nat n) by lia.
  apply map_ptr_add_shift.
Qed.

Lemma store_targets_app tr1 tr2 :
  store_targets (tr1 ++ tr2) = store_targets tr1 ++ store_targets tr2.
Proof. unfold store_targets. apply flat_map_app. Qed.

Lemma store_targets_none tr : forallb no_store tr = true -> store_targets tr = [].
Proof.
  induction tr as [|e tr IH]; intros H; simpl in *; [reflexivity|].
  apply andb_prop in H as [He Htr]. rewrite IH by exact Htr.
  destruct e; try reflexivity; discriminate.
Qed.

Lemma forallb_weaken {A} (P Q : A -> bool) (l : list A) :
  (forall x, P x = true -> Q x = true) -> forallb P l = true -> forallb Q l = true.
Proof.
  intros HPQ. induction l as [|x l IH]; intros H; simpl in *; [reflexivity|].
  apply andb_prop in H as [Hx Hl]. rewrite (HPQ x Hx), (IH Hl). reflexivity.
Qed.

Ltac io_event := intros []; simpl; intros H; first [reflexivity | discriminate H].

Lemma io_no_publish tr : forallb is_io tr = true -> forallb no_publish tr = true.
Proof. apply forallb_weaken. io_event. Qed.

Lemma io_no_store tr : forallb is_io tr = true -> forallb no_store tr = true.
Proof. apply forallb_weaken. io_event. Qed.

Lemma io_no_mode tr : forallb is_io tr = true -> forallb no_mode tr = true.
Proof. apply forallb_weaken. io_event. Qed.

(** The bus interrupt reads the published table and writes no global. *)
Lemma irq_reads_only idr_b st :
  EXTI9_5_IRQHandler idr_b st
  = (Some tt, st, [EvODR GPIOA (published_entry st (Z.land idr_b 0xFF)); EvClearExti]).
Proof. reflexivity. Qed.

Lemma no_publish_In tr q : forallb no_publish tr = true -> ~ In (EvPublish q) tr.
Proof.
  intros H Hin. rewrite forallb_forall in H. specialize (H _ Hin). discriminate.
Qed.

(** A pointer that starts at one of the two tables and is only ever set
    to one of them stays at one of them. *)
Lemma handle_after_ok tr : forall p,
  published_ok p ->
  (forall q, In (EvPublish q) tr -> published_ok q) ->
  published_ok (handle_after tr p).
Proof.
  induction tr as [|e tr IH]; intros p Hp Hq; simpl; [exact Hp|].
  apply IH.
  - destruct e; try exact Hp. apply Hq. left. reflexivity.
  - intros q Hin. apply Hq. right. exact Hin.
Qed.

Lemma poll_core_split st info :
  poll_core st info = before_publish st info ++ [EvPublish (inactive st)].
Proof. unfold poll_core, before_publish. rewrite <- !app_assoc. reflexivity. Qed.

Lemma before_publish_no_publish st info :
  forallb no_publish (before_publish st info) = true.
Proof.
  unfold before_publish. rewrite !forallb_app.
  rewrite (io_no_publish _ (usb_diag_io _ _)), mode_events_no_publish, stores_no_publish.
  reflexivity.
Qed.

Lemma mode_events_store_targets m : store_targets (mode_events m) = [].
Proof. apply store_targets_none, mode_events_no_store. Qed.

Lemma before_publish_targets st info :
  store_targets (before_publish st info) = map (ptr_add (inactive st)) (seqZ 0 255).
Proof.
  unfold before_publish. rewrite !store_targets_app.
  rewrite (store_targets_none _ (io_no_store _ (usb_diag_io _ _))).
  rewrite mode_events_store_targets, stores_targets. reflexivity.
Qed.

Lemma poll_wf st info : wf_state st -> wf_state (replay (poll_core st info) st).
Proof.
  intros (Ha & Hb & Hp). split; [|split].
  - rewrite <- Ha. apply (replay_length _ st BufA).
  - rewrite <- Hb. apply (replay_length _ st BufB).
  - rewrite poll_handle. apply inactive_ok.
Qed.

(** C2: in a poll that reaches the precompute step (the USB stack gave a
    report), started with the pointer at one of the two tables: the write
    target is the start of one of the two tables and not the table that
    is published; the trace is a part without publication whose stores
    go to the 255 addresses [a + 0 .. a + 254] of the target, then the
    one store to the pointer, then a part without stores and without
    publication; after every prefix of the trace the pointer is at one of
    the two tables; and the globals at the end are again well formed,
    with the pointer at the target. *)
Theorem double_buffer_discipline (st : state) (info : HID_KEYBD_Info) (idr : list Z) :
  wf_state st ->
  let r := MyIdle (KeybdInfo info) idr st in
  let a := inactive st in
  published_ok a /\
  base a <> base (zx_prepared st) /\
  (exists tr1 tr2,
      trace r = tr1 ++ EvPublish a :: tr2 /\
      forallb no_publish tr1 = true /\
      store_targets tr1 = map (ptr_add a) (seqZ 0 255) /\
      forallb no_publish tr2 = true /\
      forallb no_store tr2 = true) /\
  (forall tr1 tr2, trace r = tr1 ++ tr2 -> published_ok (zx_prepared (replay tr1 st))) /\
  final r = replay (trace r) st /\
  zx_prepared (final r) = a /\
  wf_state (final r).
Proof.
  intros Hwf r a.
  destruct (MyIdle_run info idr st) as (res & tail & Hio & Hrun).
  subst r. rewrite Hrun. unfold final, trace. cbn [fst snd].
  split; [apply inactive_ok|].
  split; [apply inactive_other; apply Hwf|].
  split; [|split; [|split; [|split]]].
  - exists (before_publish st info), tail.
    rewrite poll_core_split, <- app_assoc.
    split; [reflexivity|].
    split; [apply before_publish_no_publish|].
    split; [apply before_publish_targets|].
    split; [apply io_no_publish; exact Hio|apply io_no_store; exact Hio].
  - intros tr1 tr2 Heq. rewrite replay_handle.
    apply handle_after_ok; [apply Hwf|].
    intros q Hin.
    assert (In (EvPublish q) (poll_core st info ++ tail)) as Hin'
      by (rewrite Heq; apply in_or_app; left; exact Hin).
    rewrite poll_core_split, <- app_assoc in Hin'.
    apply in_app_or in Hin' as [Hin'|Hin'].
    + exfalso. exact (no_publish_In _ _ (before_publish_no_publish st info) Hin').
    + destruct Hin' as [Hq|Hin'].
      * injection Hq as <-. apply inactive_ok.
      * exfalso. exact (no_publish_In _ _ (io_no_publish _ Hio) Hin').
  - rewrite replay_app, (replay_io tail) by exact Hio. reflexivity.
  - apply poll_handle.
  - apply poll_wf. exact Hwf.
Qed.

Lemma double_buffer_discipline_witness :
  let r := MyIdle (KeybdInfo (one_key KEY_A)) [] initial_state in
  let a := inactive initial_state in
  published_ok a /\
  base a <> base (zx_prepared initial_state) /\
  (exists tr1 tr2,
      trace r = tr1 ++ EvPublish a :: tr2 /\
      forallb no_publish tr1 = true /\
      store_targets tr1 = map (ptr_add a) (seqZ 0 255) /\
      forallb no_publish tr2 = true /\
      forallb no_store tr2 = true) /\
  (forall tr1 tr2, trace r = tr1 ++ tr2 ->
                   published_ok (zx_prepared (replay tr1 initial_state))) /\
  final r = replay (trace r) initial_state /\
  zx_prepared (final r) = a /\
  wf_state (final r).
Proof.
  apply (double_buffer_discipline initial_state (one_key KEY_A) []).
  exact initial_state_wf.
Defined.

(** C9: in a poll with a report the stores go, in this order, to the
    addresses [a + 0 .. a + 254] of the table that is not published, and
    to no other; whatever the USB stack answers, the entry at index 255
    of either table and the whole of the published table are after the
    poll what they were before it. *)
Theorem precompute_frame (st : state) (input : usb_input) (idr : list Z) :
  wf_state st ->
  let r := MyIdle input idr st in
  (forall info, input = KeybdInfo info ->
     store_targets (trace r) = map (ptr_add (inactive st)) (seqZ 0 255) /\
     base (inactive st) <> base (zx_prepared st)) /\
  (forall b, table b (final r) !!! 255%nat = table b st !!! 255%nat) /\
  (forall k, table (base (zx_prepared st)) (final r) !!! k
             = table (base (zx_prepared st)) st !!! k).
Proof.
  intros Hwf r. subst r. destruct input as [| |info].
  - split; [intros info [=]|]. split; reflexivity.
  - split; [intros info [=]|]. split; reflexivity.
  - destruct (MyIdle_run info idr st) as (res & tail & Hio & Hrun).
    rewrite Hrun. unfold final, trace. cbn [fst snd].
    split; [|split].
    + intros info' _. split; [|apply inactive_other; apply Hwf].
      rewrite store_targets_app, poll_core_split, store_targets_app.
      rewrite before_publish_targets.
      rewrite (store_targets_none tail) by (apply io_no_store; exact Hio).
      rewrite !app_nil_r. reflexivity.
    + intros b. rewrite poll_table by exact Hwf.
      case_decide as Hd; [lia|reflexivity].
    + intros k. rewrite poll_table by exact Hwf.
      case_decide as Hd; [|reflexivity].
      exfalso. destruct Hd as [Hd _]. symmetry in Hd.
      exact (inactive_other st (proj2 (proj2 Hwf)) Hd).
Qed.

Lemma precompute_frame_witness :
  let r := MyIdle (KeybdInfo (one_key KEY_A)) [] initial_state in
  (forall info, KeybdInfo (one_key KEY_A) = KeybdInfo info ->
     store_targets (trace r) = map (ptr_add (inactive initial_state)) (seqZ 0 255) /\
     base (inactive initial_state) <> base (zx_prepared initial_state)) /\
  (forall b, table b (final r) !!! 255%nat = table b initial_state !!! 255%nat) /\
  (forall k, table (base (zx_prepared initial_state)) (final r) !!! k
             = table (base (zx_prepared initial_state)) initial_state !!! k).
Proof.
  apply (precompute_frame initial_state (KeybdInfo (one_key KEY_A)) []).
  exact initial_state_wf.
Defined.

(** ** No device *)

(** C10: when the USB stack has no HID class active or gives no report,
    the poll returns at once: nothing is stored or printed, the pointer,
    the two tables and the mode flag are what they were, and so is every
    entry of the published table. *)
Theorem no_device_no_change (input : usb_input) (idr : list Z) (st : state) :
  device_present input = false ->
  MyIdle input idr st = (Some tt, st, []) /\
  zx_prepared (final (MyIdle input idr st)) = zx_prepared st /\
  zx_prepared_a (final (MyIdle input idr st)) = zx_prepared_a st /\
  zx_prepared_b (final (MyIdle input idr st)) = zx_prepared_b st /\
  sinclair_joystic (final (MyIdle input idr st)) = sinclair_joystic st /\
  forall i, published_entry (final (MyIdle input idr st)) i = published_entry st i.
Proof.
  intros Hdev. destruct input as [| |info]; [| |discriminate Hdev];
    repeat split; reflexivity.
Qed.

Lemma no_device_no_change_witness :
  MyIdle NoHidClass [] initial_state = (Some tt, initial_state, []) /\
  zx_prepared (final (MyIdle NoHidClass [] initial_state)) = zx_prepared initial_state /\
  zx_prepared_a (final (MyIdle NoHidClass [] initial_state)) = zx_prepared_a initial_state /\
  zx_prepared_b (final (MyIdle NoHidClass [] initial_state)) = zx_prepared_b initial_state /\
  sinclair_joystic (final (MyIdle NoHidClass [] initial_state))
  = sinclair_joystic initial_state /\
  forall i, published_entry (final (MyIdle NoHidClass [] initial_state)) i
            = published_entry initial_state i.
Proof. apply (no_device_no_change NoHidClass [] initial_state). reflexivity. Defined.

(** ** The mode flag *)

Lemma poll_mode st info :
  sinclair_joystic (replay (poll_core st info) st)
  = mode_after (mode_events (built (sinclair_joystic st) info)) (sinclair_joystic st).
Proof.
  rewrite replay_mode. unfold poll_core. rewrite !mode_after_app.
  rewrite (mode_after_keep (flat_map _ _)) by (apply io_no_mode, usb_diag_io).
  rewrite (mode_after_keep (stores _ _ _ _)) by apply stores_no_mode.
  reflexivity.
Qed.

Lemma MyIdle_mode st info idr :
  sinclair_joystic (final (MyIdle (KeybdInfo info) idr st)) =
    let m := built (sinclair_joystic st) info in
    if negb (ZxMatrixGet m ZX_CURJO =? 0) then false
    else if negb (ZxMatrixGet m ZX_SINJO =? 0) then true
    else sinclair_joystic st.
Proof.
  rewrite MyIdle_final, poll_mode. unfold mode_events. cbv zeta.
  destruct (negb (ZxMatrixGet _ ZX_CURJO =? 0)); [reflexivity|].
  destruct (negb (ZxMatrixGet _ ZX_SINJO =? 0)); reflexivity.
Qed.

Lemma run_cycles_cons input idr rest st :
  run_cycles ((input, idr) :: rest) st =
    match result (MyIdle input idr st) with
    | Some _ => run_cycles rest (final (MyIdle input idr st))
    | None => final (MyIdle input idr st)
    end.
Proof.
  simpl. destruct (MyIdle input idr st) as [[[u|] st'] tr]; reflexivity.
Qed.

Lemma joystick_mode_persists cycles : forall st,
  sinclair_joystic st = true ->
  Forall (fun c => curjo_released (fst c)) cycles ->
  sinclair_joystic (run_cycles cycles st) = true.
Proof.
  induction cycles as [|[input idr] rest IH]; intros st Hjoy Hrel; [exact Hjoy|].
  inversion Hrel as [|c l Hc Hrest]; subst. simpl in Hc.
  assert (sinclair_joystic (final (MyIdle input idr st)) = true) as Hnext.
  { destruct input as [| |info]; try exact Hjoy.
    rewrite MyIdle_mode. cbv zeta.
    rewrite (Hc info st (built (sinclair_joystic st) info) eq_refl Hjoy)
      by (rewrite build_matrix_run; reflexivity).
    simpl. destruct (negb _); [reflexivity|exact Hjoy]. }
  rewrite run_cycles_cons.
  destruct (result (MyIdle input idr st)); [|exact Hnext].
  apply IH; assumption.
Qed.

Lemma shift_keys_range shifts : forall i k,
  In k (shift_keys i shifts) -> i <= k < i + Z.of_nat (length shifts).
Proof.
  induction shifts as [|s shifts IH]; intros i k Hin; simpl in Hin; [contradiction|].
  apply in_app_or in Hin as [Hin|Hin].
  - destruct (negb (s =? 0)); simpl in Hin; [|contradiction].
    destruct Hin as [<-|[]]. simpl length. lia.
  - apply IH in Hin. simpl length. lia.
Qed.

Lemma std_keys_In ks k :
  In k (std_keys ks) -> exists u, In u ks /\ k = u8 (STD_KEYS_OFFSET + u).
Proof.
  induction ks as [|u ks IH]; simpl; [contradiction|]. intros Hin.
  apply in_app_or in Hin as [Hin|Hin].
  - destruct (KEY_A <=? u); simpl in Hin; [|contradiction].
    destruct Hin as [<-|[]]. exists u. split; [left|]; reflexivity.
  - destruct (IH Hin) as (u' & Hu' & ->). exists u'. split; [right; exact Hu'|reflexivity].
Qed.

(** Only the entry of F5 stands at the position of CURJO. *)
Lemma only_F5_is_curjo :
  forallb (fun n => let k := Z.of_nat n in
             (k =? STD_KEYS_OFFSET + KEY_F5)
             || negb (existsb (fun k' => same_position k' ZX_CURJO) (zx_keys true k)
                      || existsb (fun k' => same_position k' ZX_CURJO) (zx_keys false k)))
          (seq 0 256) = true.
Proof. vm_compute. reflexivity. Qed.

Lemma zx_keys_not_curjo joy k :
  0 <= k < 256 -> k <> STD_KEYS_OFFSET + KEY_F5 ->
  existsb (fun k' => same_position k' ZX_CURJO) (zx_keys joy k) = false.
Proof.
  intros Hk Hne. pose proof only_F5_is_curjo as H. rewrite forallb_forall in H.
  specialize (H (Z.to_nat k)). cbv zeta in H. rewrite Z2Nat.id in H by lia.
  assert (In (Z.to_nat k) (seq 0 256)) as Hin by (apply in_seq; lia).
  specialize (H Hin). apply Z.eqb_neq in Hne. rewrite Hne in H. simpl in H.
  apply negb_true_iff, orb_false_iff in H as [Ht Hf].
  destruct joy; assumption.
Qed.

(** A report in which F5 is not pressed leaves CURJO released. *)
Lemma no_F5_curjo_released info :
  Forall (fun u => u8 (STD_KEYS_OFFSET + u) <> STD_KEYS_OFFSET + KEY_F5) (keys info) ->
  curjo_released (KeybdInfo info).
Proof.
  intros Hkeys info' st m [= <-] _ Hm.
  rewrite build_matrix_run in Hm. unfold result in Hm. simpl in Hm. injection Hm as <-.
  destruct (Z.eq_dec (ZxMatrixGet (built (sinclair_joystic st) info) ZX_CURJO) 0) as [He|Hn];
    [exact He|exfalso].
  apply ZxMatrixGet_nonzero in Hn. unfold built in Hn.
  rewrite bit_at_fold_ZxMatrixSet in Hn by reflexivity.
  change (bit_at zero_matrix ZX_CURJO) with false in Hn. simpl orb in Hn.
  apply existsb_exists in Hn as (k' & Hin & Hpos).
  apply in_flat_map in Hin as (k & Hk & Hk').
  assert (existsb (fun k' => same_position k' ZX_CURJO) (zx_keys (sinclair_joystic st) k)
          = true) as Hex by (apply existsb_exists; exists k'; split; assumption).
  unfold pressed_usb_keys in Hk. apply in_app_or in Hk as [Hk|Hk].
  - apply shift_keys_range in Hk. simpl in Hk.
    rewrite zx_keys_not_curjo in Hex; [discriminate|lia|].
    change (STD_KEYS_OFFSET + KEY_F5) with 66. lia.
  - apply std_keys_In in Hk as (u & Hu & ->).
    rewrite Forall_forall in Hkeys. specialize (Hkeys u).
    rewrite zx_keys_not_curjo in Hex; [discriminate|apply u8_range|].
    apply Hkeys. apply list_elem_of_In. exact Hu.
Qed.

(** C5: the mode flag after a poll with a report is: false if the
    position of CURJO (force standard) is set in the matrix just built;
    otherwise true if the position of SINJO (force joystick) is set;
    otherwise what it was.  So after a poll in which SINJO is asserted
    and CURJO is not, the flag is true, and it is still true after any
    further polls (with or without a report) in none of which CURJO is
    asserted. *)
Theorem mode_update (st : state) (info : HID_KEYBD_Info) (idr : list Z) (m : matrix) :
  result (build_matrix info st) = Some m ->
  sinclair_joystic (final (MyIdle (KeybdInfo info) idr st)) =
    (if negb (ZxMatrixGet m ZX_CURJO =? 0) then false
     else if negb (ZxMatrixGet m ZX_SINJO =? 0) then true
     else sinclair_joystic st) /\
  (ZxMatrixGet m ZX_CURJO = 0 -> ZxMatrixGet m ZX_SINJO <> 0 ->
   forall rest,
     Forall (fun c => curjo_released (fst c)) rest ->
     sinclair_joystic (run_cycles ((KeybdInfo info, idr) :: rest) st) = true).
Proof.
  intros Hm. rewrite build_matrix_run in Hm. unfold result in Hm. simpl in Hm.
  injection Hm as <-.
  split; [apply MyIdle_mode|].
  intros Hcur Hsin rest Hrest.
  assert (sinclair_joystic (final (MyIdle (KeybdInfo info) idr st)) = true) as Hnext.
  { rewrite MyIdle_mode. cbv zeta. rewrite Hcur. simpl.
    apply Z.eqb_neq in Hsin. rewrite Hsin. reflexivity. }
  rewrite run_cycles_cons.
  destruct (result (MyIdle (KeybdInfo info) idr st)); [|exact Hnext].
  apply joystick_mode_persists; assumption.
Qed.

Lemma mode_update_witness :
  sinclair_joystic (final (MyIdle (KeybdInfo (one_key KEY_F6)) [] initial_state)) =
    (if negb (ZxMatrixGet [0; 64; 0; 0; 0; 0; 0; 0] ZX_CURJO =? 0) then false
     else if negb (ZxMatrixGet [0; 64; 0; 0; 0; 0; 0; 0] ZX_SINJO =? 0) then true
     else sinclair_joystic initial_state) /\
  (ZxMatrixGet [0; 64; 0; 0; 0; 0; 0; 0] ZX_CURJO = 0 ->
   ZxMatrixGet [0; 64; 0; 0; 0; 0; 0; 0] ZX_SINJO <> 0 ->
   forall rest,
     Forall (fun c => curjo_released (fst c)) rest ->
     sinclair_joystic (run_cycles ((KeybdInfo (one_key KEY_F6), []) :: rest) initial_state)
     = true).
Proof.
  apply (mode_update initial_state (one_key KEY_F6) [] [0; 64; 0; 0; 0; 0; 0; 0]).
  reflexivity.
Defined.

(** The scenario of the design document, run: F6 for one poll, then
    polls with no key, with another key and without a device leave the
    flag on; F5 clears it. *)
Example mode_toggle_scenario :
  let on := run_cycles [(KeybdInfo (one_key KEY_F6), []);
                        (KeybdInfo (one_key 0), []);
                        (KeybdInfo (one_key KEY_A), []);
                        (NoKeybdInfo, [])] initial_state in
  sinclair_joystic on = true /\
  sinclair_joystic (run_cycles [(KeybdInfo (one_key KEY_F5), [])] on) = false.
Proof. vm_compute. split; reflexivity. Qed.

(** ** The entry for usage code 0x64 *)

(** C8 does not hold on the code: the entry of usage code 0x64, at index
    [STD_KEYS_OFFSET + 0x64] of the mapping table, is the literal 0, which
    is not [NONE] but the encoding of [ZX_CAPS].  The call for that code
    prints nothing and sets the CAPS SHIFT bit (row 0, column 0). *)
Theorem placeholder_sets_caps (st : state) (m : matrix) :
  usb_to_zx !!! Z.to_nat (STD_KEYS_OFFSET + 0x64) = 0 /\
  ZX_CAPS = 0 /\
  ZxMatrixSetUsb m (STD_KEYS_OFFSET + 0x64) st = (Some (ZxMatrixSet m ZX_CAPS), st, []) /\
  build_matrix (one_key 0x64) initial_state
  = (Some [1; 0; 0; 0; 0; 0; 0; 0], initial_state, []) /\
  ZxMatrixGet [1; 0; 0; 0; 0; 0; 0; 0] ZX_CAPS <> 0.
Proof.
  split; [reflexivity|]. split; [reflexivity|]. split; [|split].
  - rewrite ZxMatrixSetUsb_run. destruct (sinclair_joystic st); reflexivity.
  - vm_compute. reflexivity.
  - vm_compute. discriminate.
Qed.

(** ** Well-formed globals in every poll *)

Lemma MyIdle_wf input idr st : wf_state st -> wf_state (final (MyIdle input idr st)).
Proof.
  intros Hwf. destruct input as [| |info]; try exact Hwf.
  rewrite MyIdle_final. apply poll_wf. exact Hwf.
Qed.

Lemma run_cycles_wf cycles : forall st, wf_state st -> wf_state (run_cycles cycles st).
Proof.
  induction cycles as [|[input idr] rest IH]; intros st Hwf; [exact Hwf|].
  rewrite run_cycles_cons. pose proof (MyIdle_wf input idr st Hwf) as Hnext.
  destruct (result (MyIdle input idr st)); [apply IH|]; exact Hnext.
Qed.

(** Every state that a run of polls reaches from the reset state is well
    formed. *)
Lemma reachable_wf cycles : wf_state (run_cycles cycles initial_state).
Proof. apply run_cycles_wf, initial_state_wf. Qed.

(** * Further properties of the code *)

(** ** The key encoding *)

Lemma land_7_cases x :
  Z.land x 7 = 0 \/ Z.land x 7 = 1 \/ Z.land x 7 = 2 \/ Z.land x 7 = 3 \/
  Z.land x 7 = 4 \/ Z.land x 7 = 5 \/ Z.land x 7 = 6 \/ Z.land x 7 = 7.
Proof.
  assert (0 <= Z.land x 7 < 8) as H.
  { change 7 with (Z.ones 3). rewrite Z.land_ones by lia. apply Z.mod_pos_bound. lia. }
  lia.
Qed.

(** X1: the macro [ZX] packs a row and a column so that [ZX_GET_ADDRESS]
    and [ZX_GET_DATA] give them back (each reduced to its 3 bits), also
    when the flags [ZXM_CAP] and [ZXM_SYM] are ORed in; and each flag is
    read back as it was put in. *)
Theorem ZX_round_trip (A D : Z) (cap sym : bool) :
  let key := Z.lor (Z.lor (ZX A D) (if cap then ZXM_CAP else 0)) (if sym then ZXM_SYM else 0) in
  ZX_GET_ADDRESS key = Z.land A 7 /\
  ZX_GET_DATA key = Z.land D 7 /\
  negb (Z.land key ZXM_CAP =? 0) = cap /\
  negb (Z.land key ZXM_SYM =? 0) = sym /\
  0 <= key < 256.
Proof.
  intros key. subst key. unfold ZX, ZX_A_MASK, ZX_D_MASK.
  destruct (land_7_cases A) as [-> | [-> | [-> | [-> | [-> | [-> | [-> | ->]]]]]]];
    destruct (land_7_cases D) as [-> | [-> | [-> | [-> | [-> | [-> | [-> | ->]]]]]]];
    destruct cap, sym; vm_compute; repeat split; discriminate.
Qed.

(** ** Reading and setting matrix bits *)

Lemma u8_shiftl_1 d : 0 <= d < 8 -> u8 (Z.shiftl 1 d) = Z.shiftl 1 d.
Proof.
  intros Hd. apply u8_small. pose proof (shiftl_1_bound d 8 Hd) as H.
  change (2 ^ 8) with 256 in H. exact H.
Qed.

(** X2: on a matrix of 8 rows, reading a key after setting a key gives
    the mask of the read key's column when both keys have the same row
    and column, and what was read before otherwise. *)
Theorem ZxMatrixGet_after_Set (m : matrix) (k' k : Z) :
  length m = 8%nat ->
  ZxMatrixGet (ZxMatrixSet m k') k =
    if same_position k' k then Z.shiftl 1 (ZX_GET_DATA k) else ZxMatrixGet m k.
Proof.
  intros Hlen. rewrite !ZxMatrixGet_alt, bit_at_ZxMatrixSet by exact Hlen.
  destruct (same_position k' k).
  - rewrite orb_true_r. apply u8_shiftl_1, ZX_GET_DATA_range.
  - rewrite orb_false_r. reflexivity.
Qed.

Lemma ZxMatrixGet_after_Set_witness :
  ZxMatrixGet (ZxMatrixSet zero_matrix ZX_A) ZX_S =
    if same_position ZX_A ZX_S then Z.shiftl 1 (ZX_GET_DATA ZX_S)
    else ZxMatrixGet zero_matrix ZX_S.
Proof. apply (ZxMatrixGet_after_Set zero_matrix ZX_A ZX_S). reflexivity. Defined.

Lemma ZxMatrixSet_twice (m : matrix) k : ZxMatrixSet (ZxMatrixSet m k) k = ZxMatrixSet m k.
Proof.
  unfold ZxMatrixSet. rewrite list_insert_insert_eq.
  rewrite list_lookup_total_insert.
  destruct (decide _) as [Hd|Hd].
  - rewrite u8_lor_u8, <- Z.lor_assoc, Z.lor_diag. reflexivity.
  - destruct (decide (Z.to_nat (ZX_GET_ADDRESS k) < length m)%nat) as [Hlt|Hge].
    + exfalso. apply Hd. split; [reflexivity|exact Hlt].
    + rewrite !list_insert_ge by lia. reflexivity.
Qed.

(** X3: setting a key is idempotent, keeps the number of rows, leaves
    every row other than the key's as it was, and on a matrix of 8 rows
    clears no bit: a key that reads non-zero before reads non-zero after. *)
Theorem ZxMatrixSet_only_adds (m : matrix) (k' : Z) :
  ZxMatrixSet (ZxMatrixSet m k') k' = ZxMatrixSet m k' /\
  length (ZxMatrixSet m k') = length m /\
  (forall r : nat, r <> Z.to_nat (ZX_GET_ADDRESS k') -> ZxMatrixSet m k' !!! r = m !!! r) /\
  (length m = 8%nat ->
   forall k, ZxMatrixGet m k <> 0 -> ZxMatrixGet (ZxMatrixSet m k') k <> 0).
Proof.
  split; [apply ZxMatrixSet_twice|]. split; [apply ZxMatrixSet_length|]. split.
  - intros r Hr. unfold ZxMatrixSet. apply list_lookup_total_insert_ne. congruence.
  - intros Hlen k Hk. apply ZxMatrixGet_nonzero. apply ZxMatrixGet_nonzero in Hk.
    rewrite bit_at_ZxMatrixSet by exact Hlen. rewrite Hk. reflexivity.
Qed.

(** ** Keys without a mapping *)

Lemma none_not_directional usb_key :
  0 <= usb_key < ARRAY_SIZE usb_to_zx ->
  usb_to_zx !!! Z.to_nat usb_key = NONE ->
  ~ (STD_KEYS_OFFSET + KEY_RIGHTARROW <= usb_key < STD_KEYS_OFFSET + KEY_RIGHTARROW + 4).
Proof.
  intros Hk Hnone Hdir. change (STD_KEYS_OFFSET + KEY_RIGHTARROW) with 83 in Hdir.
  assert (usb_key = 83 \/ usb_key = 84 \/ usb_key = 85 \/ usb_key = 86) as Hc by lia.
  destruct Hc as [-> | [-> | [-> | ->]]]; vm_compute in Hnone; discriminate.
Qed.

(** X4: a call of [ZxMatrixSetUsb] with an index past the end of the
    mapping table, or with an index whose entry is [NONE], reads nothing
    outside the table, returns the matrix as it was, leaves the globals
    alone and prints exactly one diagnostic, which carries the index;
    this holds in either mode. *)
Theorem unknown_key_ignored (st : state) (m : matrix) (usb_key : Z) :
  0 <= usb_key < 256 ->
  ARRAY_SIZE usb_to_zx <= usb_key \/ usb_to_zx !!! Z.to_nat usb_key = NONE ->
  ZxMatrixSetUsb m usb_key st = (Some m, st, [EvDebugOutput usb_key]).
Proof.
  intros Hk Hunk. rewrite ZxMatrixSetUsb_run.
  assert (joystick_override (sinclair_joystic st) usb_key = false) as Hov.
  { destruct (joystick_override _ _) eqn:Hov; [|reflexivity]. exfalso.
    apply (joystick_override_range _ _ Hk) in Hov as [_ Hdir].
    destruct Hunk as [Hge|Hnone].
    - change (ARRAY_SIZE usb_to_zx) with 106 in Hge.
      change (STD_KEYS_OFFSET + KEY_RIGHTARROW) with 83 in Hdir. lia.
    - destruct (Z_lt_le_dec usb_key (ARRAY_SIZE usb_to_zx)) as [Hlt|Hge].
      + apply (none_not_directional usb_key); [lia|exact Hnone|exact Hdir].
      + change (ARRAY_SIZE usb_to_zx) with 106 in Hge.
        change (STD_KEYS_OFFSET + KEY_RIGHTARROW) with 83 in Hdir. lia. }
  unfold zx_keys, usb_diag, unknown_key. unfold joystick_override in Hov. rewrite Hov.
  destruct (usb_key <? ARRAY_SIZE usb_to_zx) eqn:Hlt; [|reflexivity].
  destruct Hunk as [Hge|Hnone]; [apply Z.ltb_lt in Hlt; lia|].
  rewrite Hnone. reflexivity.
Qed.

Lemma unknown_key_ignored_witness :
  ZxMatrixSetUsb zero_matrix 200 initial_state
  = (Some zero_matrix, initial_state, [EvDebugOutput 200]).
Proof.
  apply (unknown_key_ignored initial_state zero_matrix 200); [lia|].
  left. change (106 <= 200). lia.
Defined.

(** ** The matrix as a set of bits *)

Lemma ZX_decode a d :
  0 <= a < 8 -> 0 <= d < 8 ->
  ZX_GET_ADDRESS (ZX a d) = a /\ ZX_GET_DATA (ZX a d) = d.
Proof.
  intros Ha Hd.
  assert (a = 0 \/ a = 1 \/ a = 2 \/ a = 3 \/ a = 4 \/ a = 5 \/ a = 6 \/ a = 7) as Hca by lia.
  assert (d = 0 \/ d = 1 \/ d = 2 \/ d = 3 \/ d = 4 \/ d = 5 \/ d = 6 \/ d = 7) as Hcd by lia.
  destruct Hca as [-> | [-> | [-> | [-> | [-> | [-> | [-> | ->]]]]]]];
    destruct Hcd as [-> | [-> | [-> | [-> | [-> | [-> | [-> | ->]]]]]]];
    split; reflexivity.
Qed.

Lemma zero_matrix_lookup (n : nat) : (n < 8)%nat -> zero_matrix !!! n = 0.
Proof. intros Hn. do 8 (destruct n as [|n]; [reflexivity|]). lia. Qed.

Lemma bit_at_zero k : bit_at zero_matrix k = false.
Proof.
  unfold bit_at. pose proof (ZX_GET_ADDRESS_range k) as Ha.
  rewrite zero_matrix_lookup by lia. apply Z.bits_0.
Qed.

Lemma built_bit joy info k :
  bit_at (built joy info) k
  = existsb (fun k' => same_position k' k) (flat_map (zx_keys joy) (pressed_usb_keys info)).
Proof.
  unfold built. rewrite bit_at_fold_ZxMatrixSet by reflexivity.
  rewrite bit_at_zero. reflexivity.
Qed.

(** Two matrices within the columns in use with the same bits are equal. *)
Lemma matrix_ext (m m' : matrix) :
  matrix_ok m -> matrix_ok m' -> (forall k, bit_at m k = bit_at m' k) -> m = m'.
Proof.
  intros [Hlen Hrows] [Hlen' Hrows'] Hbits.
  apply (list_eq_same_length _ _ 8%nat); [exact Hlen'|exact Hlen|].
  intros i x y Hi Hx Hy.
  apply list_lookup_total_correct in Hx. apply list_lookup_total_correct in Hy.
  destruct (Hrows i Hi) as [Hbx _]. destruct (Hrows' i Hi) as [Hby _].
  rewrite Hx in Hbx. rewrite Hy in Hby.
  apply Z.bits_inj'. intros n Hn.
  destruct (Z_lt_le_dec n 8) as [Hlt|Hge].
  - destruct (ZX_decode (Z.of_nat i) n) as [Ha Hd]; [lia|lia|].
    specialize (Hbits (ZX (Z.of_nat i) n)). unfold bit_at in Hbits.
    rewrite Ha, Hd, Nat2Z.id, Hx, Hy in Hbits. exact Hbits.
  - rewrite (testbit_above x 7 n), (testbit_above y 7 n); [reflexivity| | | |];
      first [exact Hbx | exact Hby | lia].
Qed.

Lemma shift_keys_mono l l' :
  Forall2 (fun s s' => s <> 0 -> s' <> 0) l l' ->
  forall i k, In k (shift_keys i l) -> In k (shift_keys i l').
Proof.
  induction 1 as [|s s' l l' Hs _ IH]; intros i k Hin; [exact Hin|].
  simpl in *. apply in_app_or in Hin as [Hin|Hin]; apply in_or_app.
  - left. destruct (Z.eqb_spec s 0) as [He|Hne]; simpl in Hin; [contradiction|].
    destruct (Z.eqb_spec s' 0) as [He'|Hne']; [exfalso; exact (Hs Hne He')|exact Hin].
  - right. apply IH. exact Hin.
Qed.

Lemma std_keys_In_iff ks k :
  In k (std_keys ks) <-> exists u, In u ks /\ KEY_A <= u /\ k = u8 (STD_KEYS_OFFSET + u).
Proof.
  induction ks as [|u ks IH]; simpl.
  - split; [contradiction|intros (u & [] & _)].
  - rewrite in_app_iff, IH. split.
    + intros [Hin|(u' & Hu' & Hge & ->)].
      * destruct (Z.leb_spec KEY_A u) as [Hge|Hlt]; simpl in Hin; [|contradiction].
        destruct Hin as [<-|[]]. exists u. repeat split; [left; reflexivity|exact Hge].
      * exists u'. repeat split; [right; exact Hu'|exact Hge].
    + intros (u' & [<-|Hu'] & Hge & ->).
      * left. apply Z.leb_le in Hge. rewrite Hge. left. reflexivity.
      * right. exists u'. repeat split; assumption.
Qed.

Lemma pressed_mono info info' :
  report_le info info' ->
  forall k, In k (pressed_usb_keys info) -> In k (pressed_usb_keys info').
Proof.
  intros [Hkeys Hshifts] k Hin. unfold pressed_usb_keys in *.
  apply in_app_or in Hin as [Hin|Hin]; apply in_or_app.
  - left. exact (shift_keys_mono _ _ Hshifts 0 k Hin).
  - right. apply std_keys_In_iff in Hin as (u & Hu & Hge & ->).
    apply std_keys_In_iff. exists u. repeat split; [apply Hkeys; exact Hu|exact Hge].
Qed.

Lemma built_mono joy info info' k :
  report_le info info' -> bit_at (built joy info) k = true -> bit_at (built joy info') k = true.
Proof.
  intros Hle. rewrite !built_bit. intros Hex.
  apply existsb_exists in Hex as (k' & Hin & Hpos).
  apply in_flat_map in Hin as (usb_key & Hp & Hk').
  apply existsb_exists. exists k'. split; [|exact Hpos].
  apply in_flat_map. exists usb_key. split; [|exact Hk'].
  exact (pressed_mono _ _ Hle _ Hp).
Qed.

Lemma build_matrix_result info st m :
  result (build_matrix info st) = Some m -> m = built (sinclair_joystic st) info.
Proof.
  rewrite build_matrix_run. unfold result. simpl. intros [= <-]. reflexivity.
Qed.

(** X5: in a fixed mode, a report that has every key of another report
    (every usage code, every held modifier) builds a matrix that has every
    bit of the other's matrix: a further key never releases a bit. *)
Theorem more_keys_more_bits (st : state) (info info' : HID_KEYBD_Info) (m m' : matrix) :
  report_le info info' ->
  result (build_matrix info st) = Some m ->
  result (build_matrix info' st) = Some m' ->
  forall zx_key, ZxMatrixGet m zx_key <> 0 -> ZxMatrixGet m' zx_key <> 0.
Proof.
  intros Hle Hm Hm' zx_key.
  apply build_matrix_result in Hm, Hm'. subst m m'.
  rewrite !ZxMatrixGet_nonzero. apply built_mono. exact Hle.
Qed.

Lemma report_le_example :
  report_le (mkinfo 0 0 0 0 0 0 0 0 [4; 0; 0; 0; 0; 0])
            (mkinfo 0 1 0 0 0 0 0 0 [5; 4; 0; 0; 0; 0]).
Proof.
  split.
  - intros u Hu. simpl in *. intuition lia.
  - repeat constructor; intros H; try exact H; discriminate.
Qed.

Lemma more_keys_more_bits_witness :
  ZxMatrixGet [0; 1; 0; 0; 0; 0; 0; 0] ZX_A <> 0 /\
  ZxMatrixGet [1; 1; 0; 0; 0; 0; 0; 16] ZX_A <> 0.
Proof.
  assert (ZxMatrixGet [0; 1; 0; 0; 0; 0; 0; 0] ZX_A <> 0) as H by (vm_compute; discriminate).
  split; [exact H|].
  apply (more_keys_more_bits initial_state
           (mkinfo 0 0 0 0 0 0 0 0 [4; 0; 0; 0; 0; 0])
           (mkinfo 0 1 0 0 0 0 0 0 [5; 4; 0; 0; 0; 0])
           [0; 1; 0; 0; 0; 0; 0; 0] [1; 1; 0; 0; 0; 0; 0; 16]).
  - exact report_le_example.
  - reflexivity.
  - reflexivity.
  - exact H.
Defined.

Lemma report_le_of_same_keys info info' :
  (forall u, In u (keys info) <-> In u (keys info')) ->
  Forall2 (fun s s' => s = 0 <-> s' = 0) (info_shifts info) (info_shifts info') ->
  report_le info info' /\ report_le info' info.
Proof.
  intros Hkeys Hshifts. split; split.
  - intros u. apply Hkeys.
  - eapply Forall2_impl; [exact Hshifts|]. intros s s' Hiff Hs Hs'. apply Hs, Hiff, Hs'.
  - intros u. apply Hkeys.
  - apply Forall2_flip. eapply Forall2_impl; [exact Hshifts|].
    intros s s' Hiff Hs' Hs. apply Hs', Hiff, Hs.
Qed.

(** X6: the matrix of a poll depends only on which usage codes occur in
    the report and on which modifier bytes are non-zero: repeated codes,
    their order and the values of the non-zero modifier bytes make no
    difference. *)
Theorem matrix_of_key_set (st : state) (info info' : HID_KEYBD_Info) :
  (forall u, In u (keys info) <-> In u (keys info')) ->
  Forall2 (fun s s' => s = 0 <-> s' = 0) (info_shifts info) (info_shifts info') ->
  result (build_matrix info' st) = result (build_matrix info st).
Proof.
  intros Hkeys Hshifts.
  destruct (report_le_of_same_keys info info' Hkeys Hshifts) as [Hle Hle'].
  rewrite !build_matrix_run. unfold result. simpl. f_equal.
  apply matrix_ext; [apply built_ok|apply built_ok|].
  intros k.
  destruct (bit_at (built (sinclair_joystic st) info') k) eqn:Hb'.
  - symmetry. exact (built_mono _ _ _ k Hle' Hb').
  - destruct (bit_at (built (sinclair_joystic st) info) k) eqn:Hb; [|reflexivity].
    rewrite (built_mono _ _ _ k Hle Hb) in Hb'. discriminate Hb'.
Qed.

Lemma matrix_of_key_set_witness :
  result (build_matrix (mkinfo 0 0 0 0 0 7 0 0 [5; 4; 5; 0; 4; 4]) initial_state)
  = result (build_matrix (mkinfo 0 0 0 0 0 1 0 0 [4; 5; 0; 0; 0; 0]) initial_state).
Proof.
  apply (matrix_of_key_set initial_state
           (mkinfo 0 0 0 0 0 1 0 0 [4; 5; 0; 0; 0; 0])
           (mkinfo 0 0 0 0 0 7 0 0 [5; 4; 5; 0; 4; 4])).
  - intros u. simpl. intuition lia.
  - repeat constructor; intros H; try exact H; discriminate.
Defined.

(** ** The mode and the keys other than the arrows *)

Lemma zx_keys_mode usb_key :
  joystick_override true usb_key = false -> zx_keys true usb_key = zx_keys false usb_key.
Proof.
  unfold joystick_override, zx_keys. simpl. intros ->. reflexivity.
Qed.

Lemma flat_map_ext_In {A B} (f g : A -> list B) (l : list A) :
  (forall a, In a l -> f a = g a) -> flat_map f l = flat_map g l.
Proof.
  induction l as [|a l IH]; intros H; simpl; [reflexivity|].
  rewrite (H a) by (left; reflexivity). rewrite IH; [reflexivity|].
  intros a' Ha'. apply H. right. exact Ha'.
Qed.

Lemma override_off usb_key :
  0 <= usb_key < 256 ->
  ~ (STD_KEYS_OFFSET + KEY_RIGHTARROW <= usb_key < STD_KEYS_OFFSET + KEY_RIGHTARROW + 4) ->
  joystick_override true usb_key = false.
Proof.
  intros Hk Hdir. destruct (joystick_override true usb_key) eqn:Hov; [|reflexivity].
  exfalso. apply (joystick_override_range _ _ Hk) in Hov as [_ Hd]. exact (Hdir Hd).
Qed.

(** X7: the mode flag matters for the four directional codes only: a
    report of byte-sized usage codes none of which is a directional code
    builds the same matrix, with the same diagnostics, whether joystick
    mode is on or off. *)
Theorem mode_changes_arrows_only (st st' : state) (info : HID_KEYBD_Info) :
  Forall (fun u => 0 <= u < 256 /\ ~ (KEY_RIGHTARROW <= u < KEY_RIGHTARROW + 4)) (keys info) ->
  result (build_matrix info st) = result (build_matrix info st') /\
  trace (build_matrix info st) = trace (build_matrix info st').
Proof.
  intros Hkeys.
  assert (forall k, In k (pressed_usb_keys info) ->
                    zx_keys true k = zx_keys false k /\ usb_diag true k = usb_diag false k) as Hsame.
  { intros k Hin.
    assert (joystick_override true k = false) as Hov.
    { unfold pressed_usb_keys in Hin. apply in_app_or in Hin as [Hin|Hin].
      - apply shift_keys_range in Hin. simpl in Hin. apply override_off; [lia|].
        change (STD_KEYS_OFFSET + KEY_RIGHTARROW) with 83. lia.
      - apply std_keys_In_iff in Hin as (u & Hu & Hge & ->).
        rewrite Forall_forall in Hkeys.
        destruct (Hkeys u (proj2 (list_elem_of_In _ _) Hu)) as [Hu8 Hnd].
        apply override_off; [apply u8_range|].
        unfold u8, STD_KEYS_OFFSET, USB_SHIFTS_COUNT, KEY_A, KEY_RIGHTARROW in *.
        destruct (Z_lt_le_dec u 252) as [Hlt|Hge'].
        + rewrite Z.mod_small by lia. lia.
        + replace (8 - 4 + u) with ((u - 252) + 1 * 256) by lia.
          rewrite Z.mod_add by lia. rewrite Z.mod_small by lia. lia. }
    split; [apply zx_keys_mode; exact Hov|].
    unfold usb_diag, unknown_key. unfold joystick_override in Hov. rewrite Hov.
    reflexivity. }
  rewrite !build_matrix_run. unfold result, trace, built. simpl.
  assert (forall joy, flat_map (zx_keys joy) (pressed_usb_keys info)
                      = flat_map (zx_keys false) (pressed_usb_keys info)) as Hk.
  { intros [|]; [|reflexivity]. apply flat_map_ext_In. intros k Hin. apply Hsame, Hin. }
  assert (forall joy, flat_map (usb_diag joy) (pressed_usb_keys info)
                      = flat_map (usb_diag false) (pressed_usb_keys info)) as Hd.
  { intros [|]; [|reflexivity]. apply flat_map_ext_In. intros k Hin. apply Hsame, Hin. }
  rewrite (Hk (sinclair_joystic st)), (Hk (sinclair_joystic st')).
  rewrite (Hd (sinclair_joystic st)), (Hd (sinclair_joystic st')).
  split; reflexivity.
Qed.

Lemma mode_changes_arrows_only_witness :
  let st := initial_state in
  let st' := mkstate (replicate 256 0xFF) (replicate 256 0xFF) (array_ptr BufA) true in
  result (build_matrix (one_key KEY_A) st) = result (build_matrix (one_key KEY_A) st') /\
  trace (build_matrix (one_key KEY_A) st) = trace (build_matrix (one_key KEY_A) st').
Proof.
  intros st st'. apply (mode_changes_arrows_only st st' (one_key KEY_A)).
  unfold one_key, KEY_A, KEY_RIGHTARROW. simpl.
  repeat (constructor; [split; lia|]). constructor.
Defined.

(** ** What the table answers *)

Lemma published_after_poll st info idr i :
  wf_state st -> 0 <= i < 255 ->
  published_entry (final (MyIdle (KeybdInfo info) idr st)) i
  = table_entry (built (sinclair_joystic st) info) i.
Proof.
  intros Hwf Hi. unfold published_entry, load. rewrite MyIdle_final, poll_handle.
  cbn [ptr_add base off].
  assert (off (inactive st) = 0) as Hoff
    by (destruct (inactive_ok st) as [-> | ->]; reflexivity).
  rewrite Hoff, poll_table by exact Hwf.
  case_decide as Hd; [|exfalso; apply Hd; split; [reflexivity|lia]].
  rewrite Z2Nat.id by lia. reflexivity.
Qed.

Lemma complement8_byte x : 0 <= x < 256 -> complement8 x = 255 - x.
Proof.
  intros Hx. unfold complement8, u8, Z.lnot.
  replace (Z.pred (- x)) with ((255 - x) + (-1) * 256) by lia.
  rewrite Z.mod_add by lia. apply Z.mod_small. lia.
Qed.

Lemma fold_lor_bound (l : list Z) n :
  0 <= n -> Forall (fun x => 0 <= x < 2 ^ n) l -> 0 <= fold_right Z.lor 0 l < 2 ^ n.
Proof.
  intros Hn. induction 1 as [|x l Hx _ IH]; simpl.
  - split; [lia|]. apply Z.pow_pos_nonneg; lia.
  - apply lor_bound; assumption.
Qed.

Lemma fold_lor_zero (l : list Z) : fold_right Z.lor 0 l = 0 <-> Forall (fun x => x = 0) l.
Proof.
  induction l as [|x l IH]; simpl.
  - split; [constructor|reflexivity].
  - rewrite Z.lor_eq_0_iff, IH. split.
    + intros [Hx Hl]. constructor; assumption.
    + intros H. inversion H; subst. split; [reflexivity|assumption].
Qed.

Lemma or_rows_bound (m : matrix) sel : matrix_ok m -> 0 <= or_rows m sel < 128.
Proof.
  intros [_ Hrows]. unfold or_rows. change 128 with (2 ^ 7).
  apply fold_lor_bound; [lia|].
  apply Forall_forall. intros x Hx. apply list_elem_of_In in Hx.
  apply in_map_iff in Hx as (r & <- & Hr).
  apply filter_In in Hr as [Hr _]. apply in_seq in Hr.
  destruct (Hrows r) as [Hb _]; [lia|]. exact Hb.
Qed.

Lemma or_rows_zero (m : matrix) sel :
  or_rows m sel = 0 <->
  forall r, (r < 8)%nat -> sel (Z.of_nat r) = true -> m !!! r = 0.
Proof.
  unfold or_rows. rewrite fold_lor_zero, Forall_forall. split.
  - intros H r Hr Hsel. apply H. apply list_elem_of_In, in_map_iff.
    exists r. split; [reflexivity|]. apply filter_In. split; [apply in_seq; lia|exact Hsel].
  - intros H x Hx. apply list_elem_of_In, in_map_iff in Hx as (r & <- & Hr).
    apply filter_In in Hr as [Hr Hsel]. apply in_seq in Hr. apply H; [lia|exact Hsel].
Qed.

(** X8: after a poll with a report, the published entry at an index [i]
    in [0, 255) is 0xFF exactly when every row that [i] selects (bit
    clear) is zero in the matrix of that poll; so with no key pressed
    every written entry is 0xFF, and a pressed key shows in every entry
    that selects its row. *)
Theorem entry_released_iff (st : state) (info : HID_KEYBD_Info) (idr : list Z)
    (m : matrix) (i : Z) :
  wf_state st ->
  result (build_matrix info st) = Some m ->
  0 <= i < 255 ->
  published_entry (final (MyIdle (KeybdInfo info) idr st)) i = 0xFF <->
  (forall r, (r < 8)%nat -> Z.testbit i (Z.of_nat r) = false -> m !!! r = 0).
Proof.
  intros Hwf Hm Hi. apply build_matrix_result in Hm. subst m.
  rewrite published_after_poll, table_entry_active_low by assumption.
  unfold active_low_entry.
  pose proof (or_rows_bound (built (sinclair_joystic st) info)
                (fun r => negb (Z.testbit i r)) (built_ok _ _)) as Hb.
  rewrite complement8_byte by lia. split.
  - intros H255.
    assert (or_rows (built (sinclair_joystic st) info) (fun r => negb (Z.testbit i r)) = 0)
      as Hz by lia.
    rewrite or_rows_zero in Hz. intros r Hr Hbit. apply Hz; [exact Hr|].
    cbv beta. rewrite Hbit. reflexivity.
  - intros H.
    assert (or_rows (built (sinclair_joystic st) info) (fun r => negb (Z.testbit i r)) = 0)
      as Hz.
    { apply or_rows_zero. intros r Hr Hsel. apply H; [exact Hr|].
      apply negb_true_iff in Hsel. exact Hsel. }
    rewrite Hz. reflexivity.
Qed.

Lemma entry_released_iff_witness :
  published_entry (final (MyIdle (KeybdInfo (one_key KEY_A)) [] initial_state)) 2 = 0xFF <->
  (forall r, (r < 8)%nat -> Z.testbit 2 (Z.of_nat r) = false ->
             [0; 1; 0; 0; 0; 0; 0; 0] !!! r = 0).
Proof.
  apply (entry_released_iff initial_state (one_key KEY_A) [] [0; 1; 0; 0; 0; 0; 0; 0] 2).
  - exact initial_state_wf.
  - reflexivity.
  - lia.
Defined.

Lemma u8_lnot_lor a b :
  u8 (Z.lnot (Z.lor a b)) = Z.land (u8 (Z.lnot a)) (u8 (Z.lnot b)).
Proof.
  apply Z.bits_inj'. intros n Hn.
  rewrite Z.land_spec, !u8_testbit, !Z.lnot_spec, Z.lor_spec by exact Hn.
  destruct (n <? 8), (Z.testbit a n), (Z.testbit b n); reflexivity.
Qed.

Lemma fold_lor_union (f : nat -> Z) (s1 s2 : nat -> bool) (l : list nat) :
  fold_right Z.lor 0 (map f (List.filter (fun r => s1 r || s2 r) l))
  = Z.lor (fold_right Z.lor 0 (map f (List.filter s1 l)))
          (fold_right Z.lor 0 (map f (List.filter s2 l))).
Proof.
  induction l as [|r l IH]; simpl; [reflexivity|].
  destruct (s1 r), (s2 r); simpl; rewrite IH;
    apply Z.bits_inj'; intros n Hn; rewrite ?Z.lor_spec;
    repeat match goal with
           | |- context [Z.testbit ?a n] => destruct (Z.testbit a n)
           end; reflexivity.
Qed.

(** X9: the table entry of the AND of two indices is the AND of their
    entries: selecting the rows of both (a bit of the index is clear when
    either has it clear) answers with the column lines that either pulls
    low, as the wired matrix does. *)
Theorem table_entry_land (m : matrix) (i j : Z) :
  table_entry m (Z.land i j) = Z.land (table_entry m i) (table_entry m j).
Proof.
  rewrite !table_entry_active_low. unfold active_low_entry, complement8, or_rows.
  rewrite <- u8_lnot_lor. f_equal. f_equal.
  rewrite <- fold_lor_union. f_equal. f_equal.
  apply filter_ext. intros r. rewrite Z.land_spec. apply negb_andb.
Qed.

(** X10: after a poll with a report, the index that selects the single
    row [r] (all bits set except bit [r]) holds the complement of row [r]
    of the matrix, and complementing that entry gives the row back: a
    host that scans the eight rows one at a time reads the whole matrix. *)
Theorem row_scan_round_trip (st : state) (info : HID_KEYBD_Info) (idr : list Z)
    (m : matrix) (r : nat) :
  wf_state st ->
  result (build_matrix info st) = Some m ->
  (r < 8)%nat ->
  let i := Z.lxor 0xFF (Z.shiftl 1 (Z.of_nat r)) in
  let st' := final (MyIdle (KeybdInfo info) idr st) in
  0 <= i < 255 /\
  published_entry st' i = complement8 (m !!! r) /\
  complement8 (published_entry st' i) = m !!! r.
Proof.
  intros Hwf Hm Hr i st'. apply build_matrix_result in Hm. subst m.
  destruct (built_ok (sinclair_joystic st) info) as [_ Hrows].
  destruct (Hrows r Hr) as [Hb _].
  assert (0 <= i < 255) as Hi
    by (subst i; do 8 (destruct r as [|r]; [vm_compute; split; [discriminate|reflexivity]|]); lia).
  assert (published_entry st' i = complement8 (built (sinclair_joystic st) info !!! r)) as He.
  { subst st'. rewrite published_after_poll, table_entry_active_low by assumption.
    unfold active_low_entry. f_equal. subst i.
    do 8 (destruct r as [|r]; [unfold or_rows; simpl; apply Z.lor_0_r|]). lia. }
  split; [exact Hi|]. split; [exact He|].
  rewrite He, (complement8_byte (_ !!! r)) by lia.
  rewrite complement8_byte by lia. lia.
Qed.

Lemma row_scan_round_trip_witness :
  let i := Z.lxor 0xFF (Z.shiftl 1 (Z.of_nat 1)) in
  let st' := final (MyIdle (KeybdInfo (one_key KEY_A)) [] initial_state) in
  0 <= i < 255 /\
  published_entry st' i = complement8 ([0; 1; 0; 0; 0; 0; 0; 0] !!! 1%nat) /\
  complement8 (published_entry st' i) = [0; 1; 0; 0; 0; 0; 0; 0] !!! 1%nat.
Proof.
  apply (row_scan_round_trip initial_state (one_key KEY_A) [] [0; 1; 0; 0; 0; 0; 0; 0] 1).
  - exact initial_state_wf.
  - reflexivity.
  - lia.
Defined.

(** ** The tables in every reachable state *)

Lemma table_entry_range (m : matrix) i : matrix_ok m -> 128 <= table_entry m i < 256.
Proof.
  intros Hm. rewrite table_entry_active_low. unfold active_low_entry.
  pose proof (or_rows_bound m (fun r => negb (Z.testbit i r)) Hm) as Hb.
  rewrite complement8_byte by lia. lia.
Qed.

Lemma initial_tables_inv : tables_inv initial_state.
Proof.
  split; [exact initial_state_wf|]. split.
  - intros b k Hk.
    destruct b; unfold table, initial_state; cbn [zx_prepared_a zx_prepared_b];
      rewrite lookup_total_replicate_2 by lia; lia.
  - intros b.
    destruct b; unfold table, initial_state; cbn [zx_prepared_a zx_prepared_b];
      apply lookup_total_replicate_2; lia.
Qed.

Lemma MyIdle_tables_inv input idr st :
  tables_inv st -> tables_inv (final (MyIdle input idr st)).
Proof.
  intros (Hwf & Hbytes & H255). destruct input as [| |info];
    try (split; [exact Hwf|split; [exact Hbytes|exact H255]]).
  rewrite MyIdle_final. split; [apply poll_wf; exact Hwf|]. split.
  - intros b k Hk. rewrite poll_table by exact Hwf.
    case_decide; [apply table_entry_range, built_ok|apply Hbytes; exact Hk].
  - intros b. rewrite poll_table by exact Hwf.
    case_decide as Hd; [lia|apply H255].
Qed.

Lemma run_cycles_tables_inv cycles : forall st,
  tables_inv st -> tables_inv (run_cycles cycles st).
Proof.
  induction cycles as [|[input idr] rest IH]; intros st Hinv; [exact Hinv|].
  rewrite run_cycles_cons. pose proof (MyIdle_tables_inv input idr st Hinv) as Hnext.
  destruct (result (MyIdle input idr st)); [apply IH|]; exact Hnext.
Qed.

(** X11: in every state that a run of polls reaches from the reset state,
    every entry of either table is a byte with bit 7 set; the entry at
    255 of either table is still the 0xFF of the initialiser; and so the
    bus interrupt, when no row is selected (all eight lines high),
    answers 0xFF. *)
Theorem reachable_tables (cycles : list (usb_input * list Z)) (b : buffer) (k : nat) :
  (k < 256)%nat ->
  let st := run_cycles cycles initial_state in
  128 <= table b st !!! k < 256 /\
  table b st !!! 255%nat = 0xFF /\
  EXTI9_5_IRQHandler 0xFF st = (Some tt, st, [EvODR GPIOA 0xFF; EvClearExti]).
Proof.
  intros Hk st.
  destruct (run_cycles_tables_inv cycles initial_state initial_tables_inv)
    as (Hwf & Hbytes & H255).
  fold st in Hwf, Hbytes, H255.
  split; [apply Hbytes; exact Hk|]. split; [apply H255|].
  rewrite irq_reads_only. f_equal. f_equal. f_equal.
  unfold published_entry, load. destruct Hwf as (_ & _ & [Hp|Hp]); rewrite Hp; apply H255.
Qed.

Lemma reachable_tables_witness :
  let st := run_cycles [(KeybdInfo (one_key KEY_A), [])] initial_state in
  128 <= table BufB st !!! 0%nat < 256 /\
  table BufB st !!! 255%nat = 0xFF /\
  EXTI9_5_IRQHandler 0xFF st = (Some tt, st, [EvODR GPIOA 0xFF; EvClearExti]).
Proof.
  apply (reachable_tables [(KeybdInfo (one_key KEY_A), [])] BufB 0). lia.
Defined.

(** ** Waiting for the strobe *)

Lemma wait_while_Some cond idr rest :
  wait_while cond idr = Some rest <->
  exists pre v, idr = pre ++ v :: rest /\ forallb cond pre = true /\ cond v = false.
Proof.
  split.
  - revert rest. induction idr as [|x idr IH]; intros rest H; simpl in H; [discriminate|].
    destruct (cond x) eqn:Hx.
    + destruct (IH rest H) as (pre & v & -> & Hpre & Hv).
      exists (x :: pre), v. simpl. rewrite Hx, Hpre. repeat split. exact Hv.
    + injection H as <-. exists [], x. repeat split. exact Hx.
  - intros (pre & v & -> & Hpre & Hv).
    induction pre as [|x pre IH]; simpl in *.
    + rewrite Hv. reflexivity.
    + apply andb_prop in Hpre as [Hx Hpre]. rewrite Hx. apply IH. exact Hpre.
Qed.

Lemma wait_while_None cond idr :
  wait_while cond idr = None <-> forallb cond idr = true.
Proof.
  induction idr as [|x idr IH]; simpl; [split; reflexivity|].
  destruct (cond x); simpl; [exact IH|]. split; discriminate.
Qed.

(** X12: a wait loop on the input register ends exactly when some value
    fails the loop condition; it then has consumed the values up to and
    including the first such value, all earlier ones meeting the
    condition; it goes on for ever exactly when every value meets the
    condition (in particular when there is none). *)
Theorem wait_while_spec (cond : Z -> bool) (idr : list Z) :
  (forall rest,
     wait_while cond idr = Some rest <->
     exists pre v, idr = pre ++ v :: rest /\ forallb cond pre = true /\ cond v = false) /\
  (wait_while cond idr = None <-> forallb cond idr = true).
Proof.
  split; [intros rest; apply wait_while_Some|apply wait_while_None].
Qed.

Lemma m1_cycled_iff idr : m1_cycled idr = true <-> m1_cycle idr.
Proof.
  unfold m1_cycled, m1_cycle. split.
  - destruct (wait_while _ idr) as [idr'|] eqn:H1; [|discriminate].
    destruct (wait_while _ idr') as [rest|] eqn:H2; [|discriminate]. intros _.
    apply wait_while_Some in H1 as (lows & h & -> & Hlows & Hh).
    apply wait_while_Some in H2 as (highs & l & -> & Hhighs & Hl).
    exists lows, h, highs, l, rest. repeat split; try assumption.
    apply negb_false_iff in Hl. exact Hl.
  - intros (lows & h & highs & l & rest & -> & Hlows & Hh & Hhighs & Hl).
    assert (wait_while (fun v => Z.land v GPIO_PIN_6 =? 0) (lows ++ h :: highs ++ l :: rest)
            = Some (highs ++ l :: rest)) as H1
      by (apply wait_while_Some; exists lows, h; repeat split; assumption).
    rewrite H1.
    assert (wait_while (fun v => negb (Z.land v GPIO_PIN_6 =? 0)) (highs ++ l :: rest)
            = Some rest) as H2.
    { apply wait_while_Some. exists highs, l. repeat split; [exact Hhighs|].
      rewrite Hl. reflexivity. }
    rewrite H2. reflexivity.
Qed.

Lemma magic_exact idr st :
  magic idr st =
    if m1_cycled idr
    then (Some tt, st, [EvDisableIrq; EvBSRR GPIOB (Z.shiftl GPIO_PIN_9 BSRR_RESET);
                        EvBSRR GPIOB GPIO_PIN_9; EvEnableIrq])
    else (None, st, [EvDisableIrq]).
Proof.
  unfold magic, m1_cycled, bind, emit, blocked. simpl.
  destruct (wait_while _ idr) as [idr'|]; [|reflexivity].
  destruct (wait_while _ idr') as [rest|]; reflexivity.
Qed.


(** ** The port writes of a poll *)

Lemma signals_exact m a idr st :
  signals m a idr st =
    let led := EvBSRR GPIOC (if negb (load a st =? 0xFF)
                             then Z.shiftl GPIO_PIN_13 BSRR_RESET else GPIO_PIN_13) in
    let rst := EvBSRR GPIOB (if negb (ZxMatrixGet m ZX_RESET =? 0)
                             then Z.shiftl GPIO_PIN_8 BSRR_RESET else GPIO_PIN_8) in
    if negb (ZxMatrixGet m ZX_MAGIC =? 0)
    then (result (magic idr st), st, led :: rst :: trace (magic idr st))
    else (Some tt, st, [led; rst]).
Proof.
  unfold signals, bind, gets, emit. simpl.
  destruct (negb (ZxMatrixGet m ZX_MAGIC =? 0)); [|reflexivity].
  rewrite magic_exact. destruct (m1_cycled idr); reflexivity.
Qed.

(** The trace of a poll with a report, to the last event. *)
Lemma MyIdle_exact info idr st :
  let m := built (sinclair_joystic st) info in
  let st' := replay (poll_core st info) st in
  let led := EvBSRR GPIOC (if negb (load (inactive st) st' =? 0xFF)
                           then Z.shiftl GPIO_PIN_13 BSRR_RESET else GPIO_PIN_13) in
  let rst := EvBSRR GPIOB (if negb (ZxMatrixGet m ZX_RESET =? 0)
                           then Z.shiftl GPIO_PIN_8 BSRR_RESET else GPIO_PIN_8) in
  MyIdle (KeybdInfo info) idr st =
    if negb (ZxMatrixGet m ZX_MAGIC =? 0)
    then (result (magic idr st'), st', poll_core st info ++ led :: rst :: trace (magic idr st'))
    else (Some tt, st', poll_core st info ++ [led; rst]).
Proof.
  intros m st' led rst.
  unfold MyIdle. unfold bind at 1. rewrite build_matrix_run.
  unfold bind at 1. rewrite update_mode_run.
  unfold bind at 1. rewrite precompute_run.
  rewrite inactive_replay_mode. fold m.
  assert (replay (stores m 255 0 (inactive st) ++ [EvPublish (inactive st)])
            (replay (mode_events m) st) = st') as Hst.
  { subst st'. unfold poll_core. fold m.
    rewrite (replay_app (flat_map _ _)).
    rewrite (replay_io (flat_map _ _)) by apply usb_diag_io.
    rewrite (replay_app (mode_events m)). reflexivity. }
  rewrite Hst, signals_exact. cbv zeta. fold led rst.
  unfold poll_core. fold m.
  destruct (negb (ZxMatrixGet m ZX_MAGIC =? 0)); rewrite <- !app_assoc; reflexivity.
Qed.

Lemma poll_core_irq st info : irq_enabled (poll_core st info) = true.
Proof.
  assert (forall tr en, forallb (fun e => match e with
                                          | EvDisableIrq | EvEnableIrq => false
                                          | _ => true
                                          end) tr = true ->
                        fold_left (fun en e => match e with
                                               | EvDisableIrq => false
                                               | EvEnableIrq => true
                                               | _ => en
                                               end) tr en = en) as Hkeep.
  { induction tr as [|e tr IH]; intros en H; simpl in *; [reflexivity|].
    apply andb_prop in H as [He Htr]. rewrite IH by exact Htr.
    destruct e; try reflexivity; discriminate. }
  unfold irq_enabled. apply Hkeep. unfold poll_core. rewrite !forallb_app.
  set (P := fun e => match e with EvDisableIrq | EvEnableIrq => false | _ => true end).
  assert (forallb P (flat_map (usb_diag (sinclair_joystic st)) (pressed_usb_keys info)) = true)
    as Ha.
  { induction (pressed_usb_keys info) as [|k l IH]; simpl; [reflexivity|].
    rewrite forallb_app, IH. unfold usb_diag. destruct (unknown_key _ k); reflexivity. }
  assert (forallb P (mode_events (built (sinclair_joystic st) info)) = true) as Hb.
  { unfold mode_events. destruct (negb _); [reflexivity|]. destruct (negb _); reflexivity. }
  assert (forall n i o, forallb P (stores (built (sinclair_joystic st) info) n i o) = true)
    as Hc by (induction n as [|n IH]; intros i o; simpl; [reflexivity|apply IH]).
  rewrite Ha, Hb, Hc. reflexivity.
Qed.

Lemma irq_enabled_app tr1 tr2 :
  irq_enabled tr1 = true -> irq_enabled (tr1 ++ tr2) = irq_enabled tr2.
Proof. unfold irq_enabled. rewrite fold_left_app. intros ->. reflexivity. Qed.

(** X14: a poll comes to an end unless the magic position is set in the
    matrix it built and the strobe never shows a full cycle; and it comes
    to an end exactly when interrupts are enabled after its trace: it
    never returns with interrupts disabled, and when it hangs in the wait
    for the strobe, interrupts are disabled. *)
Theorem poll_blocks_only_in_magic (input : usb_input) (idr : list Z) (st : state) :
  (result (MyIdle input idr st) = None <->
   exists info m,
     input = KeybdInfo info /\
     result (build_matrix info st) = Some m /\
     ZxMatrixGet m ZX_MAGIC <> 0 /\
     ~ m1_cycle idr) /\
  (irq_enabled (trace (MyIdle input idr st)) = true <->
   result (MyIdle input idr st) = Some tt).
Proof.
  destruct input as [| |info].
  - split; [|split; reflexivity].
    split; [discriminate|intros (info & m & Hin & _); discriminate Hin].
  - split; [|split; reflexivity].
    split; [discriminate|intros (info & m & Hin & _); discriminate Hin].
  - rewrite MyIdle_exact. cbv zeta.
    set (m := built (sinclair_joystic st) info).
    set (st' := replay (poll_core st info) st).
    destruct (ZxMatrixGet m ZX_MAGIC =? 0) eqn:Hmagic; simpl negb; cbv iota.
    + unfold result, trace. simpl. split.
      * split; [discriminate|].
        intros (info' & m' & [= <-] & Hm' & Hne & _).
        apply build_matrix_result in Hm'. subst m'. fold m in Hne.
        apply Z.eqb_eq in Hmagic. contradiction.
      * rewrite irq_enabled_app by apply poll_core_irq. split; reflexivity.
    + rewrite magic_exact.
      pose proof (m1_cycled_iff idr) as Hiff.
      destruct (m1_cycled idr); unfold result, trace; simpl; split.
      * split; [discriminate|].
        intros (_ & _ & _ & _ & _ & Hno). exfalso. apply Hno, Hiff. reflexivity.
      * rewrite irq_enabled_app by apply poll_core_irq. split; reflexivity.
      * split; [|reflexivity]. intros _. exists info, m. repeat split.
        -- rewrite build_matrix_run. reflexivity.
        -- apply Z.eqb_neq. exact Hmagic.
        -- intros Hc. apply Hiff in Hc. discriminate Hc.
      * rewrite irq_enabled_app by apply poll_core_irq. split; discriminate.
Qed.

Lemma all_zero_iff (m : matrix) :
  length m = 8%nat ->
  forallb (fun x => x =? 0) m = true <-> (forall r, (r < 8)%nat -> m !!! r = 0).
Proof.
  intros Hlen.
  destruct m as [|x0 [|x1 [|x2 [|x3 [|x4 [|x5 [|x6 [|x7 [|x8 m]]]]]]]]]; try discriminate Hlen.
  simpl. rewrite !andb_true_iff, !Z.eqb_eq. split.
  - intros (H0 & H1 & H2 & H3 & H4 & H5 & H6 & H7 & _) r Hr.
    do 8 (destruct r as [|r]; [assumption|]). lia.
  - intros H.
    pose proof (H 0%nat) as H0. pose proof (H 1%nat) as H1. pose proof (H 2%nat) as H2.
    pose proof (H 3%nat) as H3. pose proof (H 4%nat) as H4. pose proof (H 5%nat) as H5.
    pose proof (H 6%nat) as H6. pose proof (H 7%nat) as H7.
    repeat split; first [apply H0 | apply H1 | apply H2 | apply H3
                        | apply H4 | apply H5 | apply H6 | apply H7]; lia.
Qed.

Lemma bsrr_writes_app port tr1 tr2 :
  bsrr_writes port (tr1 ++ tr2) = bsrr_writes port tr1 ++ bsrr_writes port tr2.
Proof. unfold bsrr_writes. apply flat_map_app. Qed.

Lemma bsrr_writes_none port tr :
  forallb (fun e => match e with EvBSRR _ _ => false | _ => true end) tr = true ->
  bsrr_writes port tr = [].
Proof.
  induction tr as [|e tr IH]; intros H; simpl in *; [reflexivity|].
  apply andb_prop in H as [He Htr]. rewrite IH by exact Htr.
  destruct e; try reflexivity; discriminate.
Qed.

Lemma poll_core_bsrr port st info : bsrr_writes port (poll_core st info) = [].
Proof.
  apply bsrr_writes_none. unfold poll_core. rewrite !forallb_app.
  set (P := fun e => match e with EvBSRR _ _ => false | _ => true end).
  assert (forallb P (flat_map (usb_diag (sinclair_joystic st)) (pressed_usb_keys info)) = true)
    as Ha.
  { induction (pressed_usb_keys info) as [|k l IH]; simpl; [reflexivity|].
    rewrite forallb_app, IH. unfold usb_diag. destruct (unknown_key _ k); reflexivity. }
  assert (forallb P (mode_events (built (sinclair_joystic st) info)) = true) as Hb.
  { unfold mode_events. destruct (negb _); [reflexivity|]. destruct (negb _); reflexivity. }
  assert (forall n i o, forallb P (stores (built (sinclair_joystic st) info) n i o) = true)
    as Hc by (induction n as [|n IH]; intros i o; simpl; [reflexivity|apply IH]).
  rewrite Ha, Hb, Hc. reflexivity.
Qed.

(** X15: in a poll with a report the LED register of port C is written
    exactly once: the reset half of pin 13 when some row of the matrix is
    non-zero (a key is down), the set half when all rows are zero.  The
    first write to port B is the reset line: the reset half of pin 8 when
    the position of RESET is set in the matrix, the set half otherwise;
    any further writes to port B are those of the magic key. *)
Theorem led_and_reset_line (st : state) (info : HID_KEYBD_Info) (idr : list Z) (m : matrix) :
  wf_state st ->
  result (build_matrix info st) = Some m ->
  let tr := trace (MyIdle (KeybdInfo info) idr st) in
  bsrr_writes GPIOC tr =
    [if forallb (fun x => x =? 0) m then GPIO_PIN_13 else Z.shiftl GPIO_PIN_13 BSRR_RESET] /\
  exists magic_writes,
    bsrr_writes GPIOB tr =
      (if ZxMatrixGet m ZX_RESET =? 0 then GPIO_PIN_8 else Z.shiftl GPIO_PIN_8 BSRR_RESET)
      :: magic_writes /\
    (ZxMatrixGet m ZX_MAGIC = 0 -> magic_writes = []).
Proof.
  intros Hwf Hm tr. apply build_matrix_result in Hm. subst m tr.
  set (m := built (sinclair_joystic st) info).
  assert (load (inactive st) (replay (poll_core st info) st) = table_entry m 0) as Hload.
  { unfold load.
    assert (off (inactive st) = 0) as Hoff
      by (destruct (inactive_ok st) as [-> | ->]; reflexivity).
    rewrite Hoff, poll_table by exact Hwf.
    case_decide as Hd; [reflexivity|]. exfalso. apply Hd. split; [reflexivity|lia]. }
  assert ((table_entry m 0 =? 0xFF) = forallb (fun x => x =? 0) m) as Hled.
  { destruct (built_ok (sinclair_joystic st) info) as [Hlen Hrows]. fold m in Hlen, Hrows.
    rewrite table_entry_active_low. unfold active_low_entry.
    pose proof (or_rows_bound m (fun r => negb (Z.testbit 0 r)) (built_ok _ _)) as Hb.
    rewrite complement8_byte by lia.
    destruct (forallb (fun x => x =? 0) m) eqn:Hz.
    - pose proof (proj1 (all_zero_iff m Hlen) Hz) as Hrz.
      assert (or_rows m (fun r => negb (Z.testbit 0 r)) = 0) as Hor
        by (apply or_rows_zero; intros r Hr _; apply Hrz; exact Hr).
      rewrite Hor. reflexivity.
    - apply Z.eqb_neq. intros Heq.
      assert (or_rows m (fun r => negb (Z.testbit 0 r)) = 0) as Hor by lia.
      rewrite or_rows_zero in Hor.
      assert (forallb (fun x => x =? 0) m = true) as Hz'.
      { apply (proj2 (all_zero_iff m Hlen)). intros r Hr. apply Hor; [exact Hr|].
        rewrite Z.bits_0. reflexivity. }
      congruence. }
  rewrite MyIdle_exact. cbv zeta. fold m. rewrite Hload, Hled.
  destruct (ZxMatrixGet m ZX_MAGIC =? 0) eqn:Hmagic; simpl negb; cbv iota;
    unfold trace; simpl snd; rewrite !bsrr_writes_app, !poll_core_bsrr; simpl app.
  - split.
    + unfold bsrr_writes. simpl.
      destruct (forallb _ m); destruct (ZxMatrixGet m ZX_RESET =? 0); reflexivity.
    + exists []. split; [|reflexivity].
      unfold bsrr_writes. simpl.
      destruct (forallb _ m); destruct (ZxMatrixGet m ZX_RESET =? 0); reflexivity.
  - rewrite magic_exact. split.
    + unfold bsrr_writes.
      destruct (m1_cycled idr); simpl;
        destruct (forallb _ m); destruct (ZxMatrixGet m ZX_RESET =? 0); reflexivity.
    + destruct (m1_cycled idr).
      * exists [Z.shiftl GPIO_PIN_9 BSRR_RESET; GPIO_PIN_9]. split.
        -- unfold bsrr_writes. simpl.
           destruct (forallb _ m); destruct (ZxMatrixGet m ZX_RESET =? 0); reflexivity.
        -- intros Hz. apply Z.eqb_neq in Hmagic. contradiction.
      * exists []. split; [|reflexivity].
        unfold bsrr_writes. simpl.
        destruct (forallb _ m); destruct (ZxMatrixGet m ZX_RESET =? 0); reflexivity.
Qed.

Lemma led_and_reset_line_witness :
  let tr := trace (MyIdle (KeybdInfo (one_key KEY_F12)) [] initial_state) in
  bsrr_writes GPIOC tr =
    [if forallb (fun x => x =? 0) [32; 0; 0; 0; 0; 0; 0; 0]
     then GPIO_PIN_13 else Z.shiftl GPIO_PIN_13 BSRR_RESET] /\
  exists magic_writes,
    bsrr_writes GPIOB tr =
      (if ZxMatrixGet [32; 0; 0; 0; 0; 0; 0; 0] ZX_RESET =? 0
       then GPIO_PIN_8 else Z.shiftl GPIO_PIN_8 BSRR_RESET)
      :: magic_writes /\
    (ZxMatrixGet [32; 0; 0; 0; 0; 0; 0; 0] ZX_MAGIC = 0 -> magic_writes = []).
Proof.
  apply (led_and_reset_line initial_state (one_key KEY_F12) [] [32; 0; 0; 0; 0; 0; 0; 0]).
  - exact initial_state_wf.
  - reflexivity.
Defined.

(** ** The four reserved positions *)

Lemma pressed_range info k : In k (pressed_usb_keys info) -> 0 <= k < 256.
Proof.
  unfold pressed_usb_keys. intros Hin. apply in_app_or in Hin as [Hin|Hin].
  - apply shift_keys_range in Hin. simpl in Hin. lia.
  - apply std_keys_In_iff in Hin as (u & _ & _ & ->). apply u8_range.
Qed.

(** Only the entry of its function key stands at a reserved position, in
    either mode. *)
Lemma reserved_sources :
  forallb (fun PF =>
     forallb (fun n =>
        let k := Z.of_nat n in
        Bool.eqb (existsb (fun k' => same_position k' (fst PF)) (zx_keys true k))
                 (k =? STD_KEYS_OFFSET + snd PF)
        && Bool.eqb (existsb (fun k' => same_position k' (fst PF)) (zx_keys false k))
                    (k =? STD_KEYS_OFFSET + snd PF))
       (seq 0 256))
    reserved_keys = true.
Proof. vm_compute. reflexivity. Qed.

Lemma reserved_source P F joy k :
  In (P, F) reserved_keys -> 0 <= k < 256 ->
  existsb (fun k' => same_position k' P) (zx_keys joy k) = (k =? STD_KEYS_OFFSET + F).
Proof.
  intros HPF Hk. pose proof reserved_sources as H.
  rewrite forallb_forall in H. specialize (H _ HPF). cbv beta in H.
  rewrite forallb_forall in H. specialize (H (Z.to_nat k)).
  cbv zeta in H. rewrite Z2Nat.id in H by lia. cbn [fst snd] in H.
  assert (In (Z.to_nat k) (seq 0 256)) as Hin by (apply in_seq; lia).
  apply H in Hin. apply andb_prop in Hin as [Ht Hf].
  apply Bool.eqb_prop in Ht, Hf. destruct joy; assumption.
Qed.

Lemma existsb_flat_map {A B} (p : B -> bool) (f : A -> list B) (l : list A) :
  existsb p (flat_map f l) = existsb (fun a => existsb p (f a)) l.
Proof.
  induction l as [|a l IH]; simpl; [reflexivity|].
  rewrite existsb_app, IH. reflexivity.
Qed.

Lemma reserved_bit P F joy info :
  In (P, F) reserved_keys ->
  bit_at (built joy info) P = true <-> In (STD_KEYS_OFFSET + F) (pressed_usb_keys info).
Proof.
  intros HPF. rewrite built_bit, existsb_flat_map, existsb_exists. split.
  - intros (k & Hin & Hex).
    rewrite (reserved_source P F joy k HPF (pressed_range info k Hin)) in Hex.
    apply Z.eqb_eq in Hex. subst k. exact Hin.
  - intros Hin. exists (STD_KEYS_OFFSET + F). split; [exact Hin|].
    rewrite (reserved_source P F joy _ HPF (pressed_range info _ Hin)).
    apply Z.eqb_refl.
Qed.

Lemma reserved_usage P F : In (P, F) reserved_keys -> 0x3E <= F <= 0x45.
Proof.
  unfold reserved_keys, KEY_F12, KEY_F10, KEY_F5, KEY_F6. simpl.
  intros [H|[H|[H|[H|[]]]]]; injection H as _ <-; lia.
Qed.

(** X16: each of the four reserved positions (RESET, MAGIC, CURJO, SINJO)
    is set in the matrix of a poll exactly when its function key (F12,
    F10, F5, F6) is among the usage codes of the report, whatever else is
    pressed or held and in either mode. *)
Theorem reserved_key_pressed (st : state) (info : HID_KEYBD_Info) (m : matrix) (P F : Z) :
  In (P, F) reserved_keys ->
  Forall (fun u => 0 <= u < 256) (keys info) ->
  result (build_matrix info st) = Some m ->
  ZxMatrixGet m P <> 0 <-> In F (keys info).
Proof.
  intros HPF Hbytes Hm. apply build_matrix_result in Hm. subst m.
  rewrite ZxMatrixGet_nonzero, (reserved_bit P F _ info HPF).
  pose proof (reserved_usage P F HPF) as HF.
  unfold pressed_usb_keys. rewrite in_app_iff, std_keys_In_iff. split.
  - intros [Hin|(u & Hu & Hge & Heq)].
    + apply shift_keys_range in Hin. simpl in Hin.
      unfold STD_KEYS_OFFSET, USB_SHIFTS_COUNT, KEY_A in Hin. lia.
    + rewrite Forall_forall in Hbytes.
      pose proof (Hbytes u (proj2 (list_elem_of_In _ _) Hu)) as Hb.
      assert (u = F) as <-; [|exact Hu].
      unfold u8, STD_KEYS_OFFSET, USB_SHIFTS_COUNT, KEY_A in *.
      destruct (Z_lt_le_dec u 252) as [Hlt|Hge'].
      * rewrite Z.mod_small in Heq by lia. lia.
      * replace (8 - 4 + u) with ((u - 252) + 1 * 256) in Heq by lia.
        rewrite Z.mod_add in Heq by lia. rewrite Z.mod_small in Heq by lia. lia.
  - intros Hin. right. exists F. split; [exact Hin|].
    unfold u8, STD_KEYS_OFFSET, USB_SHIFTS_COUNT, KEY_A. split; [lia|].
    rewrite Z.mod_small by lia. reflexivity.
Qed.

Lemma reserved_key_pressed_witness :
  ZxMatrixGet [32; 0; 0; 0; 0; 0; 0; 0] ZX_RESET <> 0 <-> In KEY_F12 (keys (one_key KEY_F12)).
Proof.
  apply (reserved_key_pressed initial_state (one_key KEY_F12) [32; 0; 0; 0; 0; 0; 0; 0]
           ZX_RESET KEY_F12).
  - left. reflexivity.
  - unfold one_key, KEY_F12. simpl. repeat (constructor; [lia|]). constructor.
  - reflexivity.
Defined.

(** ** The two tables take turns *)

(** X17: a poll with a report, started with the pointer at one of the two
    tables, publishes the other table, and the table that was published
    before it is the write target of the next poll: the two tables take
    turns, and two polls with reports bring the pointer back. *)
Theorem buffers_alternate (st : state) (info info2 : HID_KEYBD_Info) (idr idr2 : list Z) :
  wf_state st ->
  let st1 := final (MyIdle (KeybdInfo info) idr st) in
  let st2 := final (MyIdle (KeybdInfo info2) idr2 st1) in
  zx_prepared st1 = inactive st /\
  zx_prepared st1 <> zx_prepared st /\
  inactive st1 = zx_prepared st /\
  zx_prepared st2 = zx_prepared st.
Proof.
  intros (_ & _ & Hp) st1 st2.
  assert (zx_prepared st1 = inactive st) as H1
    by (subst st1; rewrite MyIdle_final; apply poll_handle).
  assert (inactive st1 = zx_prepared st) as H2.
  { unfold inactive at 1. rewrite H1. unfold inactive.
    destruct Hp as [-> | ->]; reflexivity. }
  split; [exact H1|]. split; [|split; [exact H2|]].
  - rewrite H1. unfold inactive. destruct Hp as [-> | ->]; discriminate.
  - subst st2. rewrite MyIdle_final, poll_handle. exact H2.
Qed.

Lemma buffers_alternate_witness :
  let st1 := final (MyIdle (KeybdInfo (one_key KEY_A)) [] initial_state) in
  let st2 := final (MyIdle (KeybdInfo (one_key KEY_F6)) [] st1) in
  zx_prepared st1 = inactive initial_state /\
  zx_prepared st1 <> zx_prepared initial_state /\
  inactive st1 = zx_prepared initial_state /\
  zx_prepared st2 = zx_prepared initial_state.
Proof.
  apply (buffers_alternate initial_state (one_key KEY_A) (one_key KEY_F6) [] []).
  exact initial_state_wf.
Defined.

(** ** Diagnostics *)

(** X18: [DebugOutput] transmits nothing for an empty text, and otherwise
    the text itself when it has at most 127 bytes and its first 127 bytes
    when it is longer; it never transmits the terminating 0 nor more than
    127 bytes. *)
Theorem DebugOutput_prefix (text : list Z) :
  Z.of_nat (length text) < 2 ^ 31 ->
  DebugOutput text = (if decide (text = []) then None else Some (take 127 text)) /\
  (forall out, DebugOutput text = Some out ->
     (length out <= 127)%nat /\ ((length text <= 127)%nat -> out = text)).
Proof.
  intros _.
  assert (DebugOutput text = if decide (text = []) then None else Some (take 127 text)) as H.
  { unfold DebugOutput, vsnprintf. change (128 - 1)%nat with 127%nat. change (128 - 1) with 127.
    destruct text as [|x text]; [reflexivity|].
    destruct (decide _) as [Hd|_]; [discriminate Hd|].
    set (l := x :: text).
    assert ((0 <? Z.of_nat (length l)) = true) as Hpos
      by (apply Z.ltb_lt; subst l; simpl; lia).
    rewrite Hpos. f_equal.
    destruct (Z.ltb_spec (Z.of_nat (length l)) 127) as [Hlt|Hge].
    - rewrite Nat2Z.id, (take_ge l 127) by lia. apply take_app_length.
    - change (Z.to_nat 127) with 127%nat.
      rewrite take_app_le by (rewrite length_take; lia).
      rewrite take_take. f_equal. }
  split; [exact H|]. intros out Hout. rewrite H in Hout.
  destruct (decide _); [discriminate Hout|]. injection Hout as <-.
  split; [rewrite length_take; lia|]. intros Hlen. apply take_ge. exact Hlen.
Qed.

Lemma DebugOutput_prefix_witness :
  DebugOutput [72; 105] = (if decide ([72; 105] = []) then None else Some (take 127 [72; 105])) /\
  (forall out, DebugOutput [72; 105] = Some out ->
     (length out <= 127)%nat /\ ((length [72; 105] <= 127)%nat -> out = [72; 105])).
Proof. apply (DebugOutput_prefix [72; 105]). simpl. lia. Defined.

Lemma hex_digit_inj d d' :
  0 <= d < 16 -> 0 <= d' < 16 -> hex_digit d = hex_digit d' -> d = d'.
Proof.
  unfold hex_digit. intros Hd Hd'.
  destruct (Z.ltb_spec d 10), (Z.ltb_spec d' 10); lia.
Qed.

(** X19: for a key below 256 the diagnostic of an unknown key has 16
    bytes and is transmitted whole, and two different keys give different
    diagnostics. *)
Theorem unknown_key_message (usb_key : Z) :
  0 <= usb_key < 256 ->
  length (unknown_key_text usb_key) = 16%nat /\
  DebugOutput (unknown_key_text usb_key) = Some (unknown_key_text usb_key) /\
  (forall k', 0 <= k' < 256 -> unknown_key_text usb_key = unknown_key_text k' -> usb_key = k').
Proof.
  intros Hk. split; [reflexivity|]. split.
  - unfold DebugOutput, vsnprintf.
    change (Z.of_nat (length (unknown_key_text usb_key))) with 16.
    change (0 <? 16) with true. change (16 <? 128 - 1) with true. cbv iota zeta.
    change (Z.to_nat 16) with (length (unknown_key_text usb_key)).
    rewrite (take_ge _ (128 - 1)) by (simpl; lia).
    rewrite take_app_length. reflexivity.
  - intros k' Hk' Heq. unfold unknown_key_text in Heq.
    apply app_inv_head in Heq. injection Heq as Hhi Hlo.
    assert (0 <= usb_key / 16 < 16) as Hr1
      by (split; [apply Z.div_pos; lia|apply Z.div_lt_upper_bound; lia]).
    assert (0 <= k' / 16 < 16) as Hr2
      by (split; [apply Z.div_pos; lia|apply Z.div_lt_upper_bound; lia]).
    assert (0 <= usb_key mod 16 < 16) as Hr3 by (apply Z.mod_pos_bound; lia).
    assert (0 <= k' mod 16 < 16) as Hr4 by (apply Z.mod_pos_bound; lia).
    pose proof (hex_digit_inj _ _ Hr1 Hr2 Hhi) as Ehi.
    pose proof (hex_digit_inj _ _ Hr3 Hr4 Hlo) as Elo.
    rewrite (Z.div_mod usb_key 16), (Z.div_mod k' 16) by lia.
    rewrite Ehi, Elo. reflexivity.
Qed.

Lemma unknown_key_message_witness :
  length (unknown_key_text 0x6A) = 16%nat /\
  DebugOutput (unknown_key_text 0x6A) = Some (unknown_key_text 0x6A) /\
  (forall k', 0 <= k' < 256 -> unknown_key_text 0x6A = unknown_key_text k' -> 0x6A = k').
Proof. apply (unknown_key_message 0x6A). lia. Defined.

Example unknown_key_text_6A :
  unknown_key_text 0x6A = bytes_of "Unknown key 6A"%string ++ [13; 10].
Proof. reflexivity. Qed.

(** ** The bits of one key and of a whole report *)

(** X20: from the empty matrix, outside the joystick branch, the call of
    [ZxMatrixSetUsb] for a mapped code sets exactly the position of the
    code's key, the position of CAPS if the key carries the CAPS flag and
    the position of SYM if it carries the SYM flag: one, two or three
    bits, and no other. *)
Theorem single_key_bits (st : state) (usb_key : Z) :
  0 <= usb_key < ARRAY_SIZE usb_to_zx ->
  usb_to_zx !!! Z.to_nat usb_key <> NONE ->
  ~ (sinclair_joystic st = true /\
     STD_KEYS_OFFSET + KEY_RIGHTARROW <= usb_key < STD_KEYS_OFFSET + KEY_RIGHTARROW + 4) ->
  let zx_key := usb_to_zx !!! Z.to_nat usb_key in
  exists m,
    result (ZxMatrixSetUsb zero_matrix usb_key st) = Some m /\
    forall k,
      ZxMatrixGet m k <> 0 <->
      same_position zx_key k = true \/
      (Z.land zx_key ZXM_CAP <> 0 /\ same_position ZX_CAPS k = true) \/
      (Z.land zx_key ZXM_SYM <> 0 /\ same_position ZX_SYM k = true).
Proof.
  intros Hk Hne Hno zx_key.
  assert (0 <= usb_key < 256) as Hk8 by (change (ARRAY_SIZE usb_to_zx) with 106 in Hk; lia).
  assert (joystick_override (sinclair_joystic st) usb_key = false) as Hov.
  { destruct (joystick_override _ _) eqn:Hov; [|reflexivity]. exfalso. apply Hno.
    apply (joystick_override_range _ _ Hk8). exact Hov. }
  destruct (zx_keys_lookup _ _ Hov (proj2 Hk) Hne) as [Hkeys _].
  rewrite ZxMatrixSetUsb_run, Hkeys. fold zx_key. unfold result. cbn [fst].
  eexists. split; [reflexivity|]. intros k.
  rewrite ZxMatrixGet_nonzero, bit_at_fold_ZxMatrixSet, bit_at_zero by reflexivity.
  simpl orb. cbn [existsb]. rewrite existsb_app, !orb_true_iff.
  destruct (Z.eqb_spec (Z.land zx_key ZXM_CAP) 0) as [Hc|Hc];
    destruct (Z.eqb_spec (Z.land zx_key ZXM_SYM) 0) as [Hs|Hs];
    simpl; rewrite ?orb_false_r; intuition congruence.
Qed.

Lemma single_key_bits_witness :
  exists m,
    result (ZxMatrixSetUsb zero_matrix 45 initial_state) = Some m /\
    forall k,
      ZxMatrixGet m k <> 0 <->
      same_position (usb_to_zx !!! Z.to_nat 45) k = true \/
      (Z.land (usb_to_zx !!! Z.to_nat 45) ZXM_CAP <> 0 /\ same_position ZX_CAPS k = true) \/
      (Z.land (usb_to_zx !!! Z.to_nat 45) ZXM_SYM <> 0 /\ same_position ZX_SYM k = true).
Proof.
  apply (single_key_bits initial_state 45).
  - change (0 <= 45 < 106). lia.
  - vm_compute. discriminate.
  - intros [Hjoy _]. discriminate Hjoy.
Defined.

(** X21: a position is set in the matrix of a poll exactly when one of
    the calls of that poll (one per held modifier and per usage code from
    [KEY_A] on) sets it on its own, from the empty matrix: the matrix of
    a report is the union of the matrices of its keys. *)
Theorem matrix_is_union (st : state) (info : HID_KEYBD_Info) (m : matrix) (k : Z) :
  result (build_matrix info st) = Some m ->
  ZxMatrixGet m k <> 0 <->
  exists usb_key m1,
    In usb_key (pressed_usb_keys info) /\
    result (ZxMatrixSetUsb zero_matrix usb_key st) = Some m1 /\
    ZxMatrixGet m1 k <> 0.
Proof.
  intros Hm. apply build_matrix_result in Hm. subst m.
  rewrite ZxMatrixGet_nonzero, built_bit, existsb_flat_map, existsb_exists. split.
  - intros (usb_key & Hin & Hex). exists usb_key. eexists. split; [exact Hin|].
    rewrite ZxMatrixSetUsb_run. split; [reflexivity|].
    rewrite ZxMatrixGet_nonzero, bit_at_fold_ZxMatrixSet, bit_at_zero by reflexivity.
    exact Hex.
  - intros (usb_key & m1 & Hin & Hm1 & Hget). exists usb_key. split; [exact Hin|].
    rewrite ZxMatrixSetUsb_run in Hm1. unfold result in Hm1. simpl in Hm1.
    injection Hm1 as <-.
    rewrite ZxMatrixGet_nonzero, bit_at_fold_ZxMatrixSet, bit_at_zero in Hget by reflexivity.
    exact Hget.
Qed.

Lemma matrix_is_union_witness :
  ZxMatrixGet [0; 1; 0; 0; 0; 0; 0; 0] ZX_A <> 0 <->
  exists usb_key m1,
    In usb_key (pressed_usb_keys (one_key KEY_A)) /\
    result (ZxMatrixSetUsb zero_matrix usb_key initial_state) = Some m1 /\
    ZxMatrixGet m1 ZX_A <> 0.
Proof.
  apply (matrix_is_union initial_state (one_key KEY_A) [0; 1; 0; 0; 0; 0; 0; 0] ZX_A).
  reflexivity.
Defined.
